(** * The WiMAX subscriber-station uplink scheduler

    A shallow embedding of [SSScheduler::Schedule] and
    [SSScheduler::SelectConnection] (src/wimax/model/ss-scheduler.cc).

    The scheduler talks to three collaborators whose code lives in other
    files of the WiMAX module: the PHY (symbol/byte conversions), the MAC
    queue of a connection, and the station with its connections and service
    flows.  The PHY and the queue are interfaces here (type classes); the
    scheduler is written once against them, and concrete instances are
    supplied further down to run it on examples. *)

From Stdlib Require Import ZArith Lia List Bool Sorted.
From stdpp Require Import base tactics decidable option list functions.
From stdpp Require gmap.
Import ListNotations.

Local Open Scope Z_scope.

(** ** Fixed-width unsigned integers

    [uint16_t] and [uint32_t] values are integers with the wrap-around of
    the C++ conversions written out. *)

Definition u16 (z : Z) : Z := z mod 65536.
Definition u32 (z : Z) : Z := z mod 4294967296.

(** ** Enumerations *)

Module MacHeaderType.
(** Modelled from the spec: the header types of
    [MacHeaderType::HeaderType] (wimax-mac-header.h), "[header_type]
    (GENERIC or BANDWIDTH_REQUEST)". *)
Inductive HeaderType := HEADER_TYPE_GENERIC | HEADER_TYPE_BANDWIDTH.

Definition HeaderType_eqb (a b : HeaderType) : bool :=
  match a, b with
  | HEADER_TYPE_GENERIC, HEADER_TYPE_GENERIC => true
  | HEADER_TYPE_BANDWIDTH, HEADER_TYPE_BANDWIDTH => true
  | _, _ => false
  end.
End MacHeaderType.
Export MacHeaderType (HeaderType, HEADER_TYPE_GENERIC, HEADER_TYPE_BANDWIDTH).

Module Cid.
(** Modelled from the spec: the connection types of [Cid::Type]
    (cid.h), "a type from INITIAL_RANGING, BASIC, PRIMARY, BROADCAST,
    TRANSPORT". *)
Inductive Type_ := BROADCAST | INITIAL_RANGING | BASIC | PRIMARY | TRANSPORT.

Definition Type_eqb (a b : Type_) : bool :=
  match a, b with
  | BROADCAST, BROADCAST | INITIAL_RANGING, INITIAL_RANGING
  | BASIC, BASIC | PRIMARY, PRIMARY | TRANSPORT, TRANSPORT => true
  | _, _ => false
  end.
End Cid.

Module ServiceFlow.
(** Modelled from the spec: the scheduling types of
    [ServiceFlow::SchedulingType] (service-flow.h), "scheduling type in
    UGS, rtPS, nrtPS, BE". *)
Inductive SchedulingType := SF_TYPE_BE | SF_TYPE_NRTPS | SF_TYPE_RTPS | SF_TYPE_UGS.

Definition SchedulingType_eqb (a b : SchedulingType) : bool :=
  match a, b with
  | SF_TYPE_BE, SF_TYPE_BE | SF_TYPE_NRTPS, SF_TYPE_NRTPS
  | SF_TYPE_RTPS, SF_TYPE_RTPS | SF_TYPE_UGS, SF_TYPE_UGS => true
  | _, _ => false
  end.
End ServiceFlow.

(** ** Simulation time *)

(** Modelled from the spec: [ns3::Time] (nstime.h), a signed count of time
    steps.  The step is one nanosecond, the simulator's default
    resolution. *)
Definition Time : Type := Z.

(** Modelled from the spec: [MilliSeconds] (nstime.h) brings the interval
    of a service flow, a number of milliseconds, to the time base of
    [now + frame_duration]: "both converted to the same time base". *)
Definition MilliSeconds (v : Z) : Time := v * 1000000.

(** ** The PHY interface *)

(** Modelled from the spec: [WimaxPhy] (wimax-phy.h) is an abstract class;
    the scheduler uses [GetNrBytes], [GetNrSymbols] and [GetFrameDuration].
    "[bytes_for(symbols, modulation)]; [symbols_for(bytes, modulation)];
    [frame_duration()]". *)
Class WimaxPhy := {
  ModulationType : Type;
  GetNrBytes : Z -> ModulationType -> Z;
  GetNrSymbols : Z -> ModulationType -> Z;
  GetFrameDuration : Time
}.

(** ** The MAC queue interface *)

(** Modelled from the spec: [WimaxMacQueue] (wimax-mac-queue.h) and
    [Packet::GetSize].  "Per-connection FIFO of MAC SDUs; supports
    peek-first-required-bytes, peek-first-header-bytes, a fragmentability
    predicate, and a dequeue that optionally caps byte length (producing a
    fragment)."  The queue is mutated by a dequeue: both dequeues return the
    packet together with the queue they leave behind.  [DequeueFragment] is
    the [Dequeue] with a byte cap. *)
Class WimaxMacQueue := {
  Queue : Type;
  Packet : Type;
  GetSize : Packet -> Z;
  IsEmpty : Queue -> bool;
  IsEmptyOf : HeaderType -> Queue -> bool;
  GetFirstPacketRequiredByte : HeaderType -> Queue -> Z;
  GetFirstPacketHdrSize : HeaderType -> Queue -> Z;
  CheckForFragmentation : HeaderType -> Queue -> bool;
  Dequeue : HeaderType -> Queue -> Packet * Queue;
  DequeueFragment : HeaderType -> Z -> Queue -> Packet * Queue
}.

(** A pointer to a connection ([Ptr<WimaxConnection>]) is an address into a
    heap of connections; the null pointer is [None]. *)

Definition Ptr : Type := nat.

Section Scheduler.
Context {phy : WimaxPhy} {mq : WimaxMacQueue}.

(** ** Connections, service flows and the station *)

(** Modelled from the spec: [WimaxConnection] (wimax-connection.h).
    "Each connection owns exactly one MAC queue", and it has a type. *)
Record WimaxConnection := {
  GetType : Cid.Type_;
  GetQueue : Queue
}.

Definition SetQueue (c : WimaxConnection) (q : Queue) : WimaxConnection :=
  {| GetType := GetType c; GetQueue := q |}.

(** Modelled from the spec: [WimaxConnection::HasPackets], with and
    without a header type.  "A connection has packets of header type H
    iff at least one queued SDU uses header type H." *)
Definition HasPackets (c : WimaxConnection) : bool :=
  negb (IsEmpty (GetQueue c)).

(** Modelled from the spec: [WimaxConnection::HasPackets] with a header
    type, [!m_queue->IsEmpty(packetType)]. *)
Definition HasPacketsOf (t : HeaderType) (c : WimaxConnection) : bool :=
  negb (IsEmptyOf t (GetQueue c)).

Definition Heap : Type := Ptr -> WimaxConnection.

(** Modelled from the spec: [ServiceFlow] (service-flow.h).  "A QoS
    binding that references one TRANSPORT connection", with its
    scheduling type and the two intervals, in milliseconds. *)
Record ServiceFlow_ := {
  GetSchedulingType : ServiceFlow.SchedulingType;
  GetConnection : option Ptr;
  GetUnsolicitedGrantInterval : Z;
  GetUnsolicitedPollingInterval : Z
}.

(** Modelled from the spec: [ServiceFlow::HasPackets]: the flow has
    packets when its connection has. *)
Definition SF_HasPackets (heap : Heap) (sf : ServiceFlow_) : bool :=
  match GetConnection sf with
  | Some c => HasPackets (heap c)
  | None => false
  end.

(** Modelled from the spec: [ServiceFlow::HasPackets] with a header
    type. *)
Definition SF_HasPacketsOf (heap : Heap) (t : HeaderType) (sf : ServiceFlow_) : bool :=
  match GetConnection sf with
  | Some c => HasPacketsOf t (heap c)
  | None => false
  end.

(** Modelled from the spec: what the scheduler reaches through [m_ss]
    ([SubscriberStationNetDevice], ss-net-device.h): the four management
    and broadcast connections, the registry of service flows in insertion
    order, and the clock ([Simulator::Now]). *)
Record SubscriberStation := {
  GetInitialRangingConnection : Ptr;
  GetBasicConnection : Ptr;
  GetPrimaryConnection : Ptr;
  GetBroadcastConnection : Ptr;
  m_flows : list ServiceFlow_;
  Now : Time
}.

(** Modelled from the spec: [ServiceFlowManager::GetServiceFlows],
    "[flows_of(type)]: ordered sequence of ServiceFlow", in registry
    insertion order. *)
Definition GetServiceFlows (ss : SubscriberStation) (ty : ServiceFlow.SchedulingType)
  : list ServiceFlow_ :=
  filter (fun sf => ServiceFlow.SchedulingType_eqb (GetSchedulingType sf) ty = true) (m_flows ss).

(** ** [SSScheduler::SelectConnection] *)

(** The conditions of the four [for] loops. *)
Definition ugs_condition (ss : SubscriberStation) (heap : Heap) (sf : ServiceFlow_) : bool :=
  SF_HasPackets heap sf
  && (Now ss + GetFrameDuration >? MilliSeconds (GetUnsolicitedGrantInterval sf)).
Definition rtps_condition (ss : SubscriberStation) (heap : Heap) (sf : ServiceFlow_) : bool :=
  SF_HasPacketsOf heap HEADER_TYPE_GENERIC sf
  && (Now ss + GetFrameDuration >? MilliSeconds (GetUnsolicitedPollingInterval sf)).
Definition nrtps_condition (heap : Heap) (sf : ServiceFlow_) : bool :=
  SF_HasPacketsOf heap HEADER_TYPE_GENERIC sf.
Definition be_condition (heap : Heap) (sf : ServiceFlow_) : bool :=
  SF_HasPacketsOf heap HEADER_TYPE_GENERIC sf.

(** A [for] loop over service flows that returns the connection of the
    first flow that passes the condition, and falls through
    ([otherwise]) when none does. *)
Fixpoint first_flow (cond : ServiceFlow_ -> bool) (flows : list ServiceFlow_)
    (otherwise : option Ptr) : option Ptr :=
  match flows with
  | [] => otherwise
  | sf :: rest => if cond sf then GetConnection sf else first_flow cond rest otherwise
  end.

Definition SelectConnection (ss : SubscriberStation) (heap : Heap) : option Ptr :=
  if HasPackets (heap (GetInitialRangingConnection ss)) then
    Some (GetInitialRangingConnection ss)
  else if HasPackets (heap (GetBasicConnection ss)) then
    Some (GetBasicConnection ss)
  else if HasPackets (heap (GetPrimaryConnection ss)) then
    Some (GetPrimaryConnection ss)
  else
    first_flow (ugs_condition ss heap) (GetServiceFlows ss ServiceFlow.SF_TYPE_UGS)
      (first_flow (rtps_condition ss heap) (GetServiceFlows ss ServiceFlow.SF_TYPE_RTPS)
         (first_flow (nrtps_condition heap) (GetServiceFlows ss ServiceFlow.SF_TYPE_NRTPS)
            (first_flow (be_condition heap) (GetServiceFlows ss ServiceFlow.SF_TYPE_BE)
               (if HasPackets (heap (GetBroadcastConnection ss)) then
                  Some (GetBroadcastConnection ss)
                else None)))).

(** ** [SSScheduler::Schedule] *)

(** The byte budget and the two sizes the loop body reads. *)
Definition availableByte (availableSymbols : Z) (m : ModulationType) : Z :=
  u32 (GetNrBytes availableSymbols m).
Definition requiredByte (t : HeaderType) (q : Queue) : Z :=
  u32 (GetFirstPacketRequiredByte t q).

(** [headerSize] of the fragmentation branch: the queue's header size,
    plus 2 when no fragmentation is in progress. *)
Definition headerSize (t : HeaderType) (q : Queue) : Z :=
  let headerSize := u32 (GetFirstPacketHdrSize t q) in
  if negb (CheckForFragmentation t q) then u32 (headerSize + 2) else headerSize.

(** [availableSymbols -= nrSymbolsRequired], both [uint16_t]. *)
Definition nrSymbolsRequired (packet : Packet) (m : ModulationType) : Z :=
  u16 (GetNrSymbols (u32 (GetSize packet)) m).
Definition subtract_symbols (availableSymbols : Z) (packet : Packet) (m : ModulationType) : Z :=
  u16 (availableSymbols - nrSymbolsRequired packet m).

(** One pass through the body of the [while] loop: either a packet is
    appended to the burst (the counter and the queue are updated), or the
    loop is left by [break]. *)
Inductive Iteration :=
| Appended (packet : Packet) (availableSymbols : Z) (q : Queue)
| Break.

Definition Schedule_iteration (availableSymbols : Z) (m : ModulationType)
    (t : HeaderType) (connection : WimaxConnection) : Iteration :=
  let q := GetQueue connection in
  if availableByte availableSymbols m >=? requiredByte t q then
    let '(packet, q') := Dequeue t q in
    Appended packet (subtract_symbols availableSymbols packet m) q'
  else if Cid.Type_eqb (GetType connection) Cid.TRANSPORT then
    if availableByte availableSymbols m >? headerSize t q then
      let '(packet, q') := DequeueFragment t (availableByte availableSymbols m) q in
      Appended packet (subtract_symbols availableSymbols packet m) q'
    else Break
  else Break.

(** The [while] loop.  [fuel] bounds the number of passes through the
    body; [None] means the bound was reached with the loop still
    running.  The result is the burst, the remaining symbols and the
    heap. *)
Fixpoint Schedule_loop (fuel : nat) (availableSymbols : Z) (m : ModulationType)
    (t : HeaderType) (connection : option Ptr) (heap : Heap) (burst : list Packet)
    {struct fuel} : option (list Packet * Z * Heap) :=
  match connection with
  | None => Some (burst, availableSymbols, heap)
  | Some c =>
      if HasPacketsOf t (heap c) then
        match fuel with
        | O => None
        | S fuel' =>
            match Schedule_iteration availableSymbols m t (heap c) with
            | Appended packet availableSymbols' q' =>
                Schedule_loop fuel' availableSymbols' m t connection
                  (<[c := SetQueue (heap c) q']> heap) (burst ++ [packet])
            | Break => Some (burst, availableSymbols, heap)
            end
        end
      else Some (burst, availableSymbols, heap)
  end.

(** Modelled from the spec: [NS_ASSERT_MSG] (assert.h), "fail loudly
    (abort / assertion)": a call of [Schedule] ends in the failed
    assertion, or in the burst with the connection reference and the heap
    as the call leaves them. *)
Inductive ScheduleResult :=
| AssertFailed
| Returned (burst : list Packet) (connection : option Ptr) (heap : Heap).

Definition Schedule (fuel : nat) (ss : SubscriberStation) (availableSymbols : Z)
    (modulationType : ModulationType) (packetType : HeaderType)
    (connection : option Ptr) (heap : Heap) : option ScheduleResult :=
  let burst := [] in
  let loop connection :=
    match Schedule_loop fuel availableSymbols modulationType packetType
            connection heap burst with
    | Some (burst, _, heap') => Some (Returned burst connection heap')
    | None => None
    end in
  match connection with
  | None => loop (SelectConnection ss heap)
  | Some c => if HasPackets (heap c) then loop connection else Some AssertFailed
  end.

(** ** The selection as a priority ladder *)

(** A rung of a priority ladder: a connection [SelectConnection] may
    return, with its priority level (1 to 8) and the condition under which
    the rung is taken. *)
Record Rung := {
  level : nat;
  eligible : bool;
  candidate : option Ptr
}.

Definition flow_rungs (lvl : nat) (cond : ServiceFlow_ -> bool) (flows : list ServiceFlow_)
  : list Rung :=
  map (fun sf => {| level := lvl; eligible := cond sf; candidate := GetConnection sf |}) flows.

Definition connection_rung (lvl : nat) (heap : Heap) (c : Ptr) : Rung :=
  {| level := lvl; eligible := HasPackets (heap c); candidate := Some c |}.

(** The ladder [SelectConnection] walks, in the order it looks at the
    connections, with the conditions of the code: the deadline tests of
    the UGS and rtPS loops are the strict ones ([>]) of [ugs_condition] and
    [rtps_condition]. *)
Definition priority_ladder (ss : SubscriberStation) (heap : Heap) : list Rung :=
  [connection_rung 1 heap (GetInitialRangingConnection ss);
   connection_rung 2 heap (GetBasicConnection ss);
   connection_rung 3 heap (GetPrimaryConnection ss)]
  ++ flow_rungs 4 (ugs_condition ss heap) (GetServiceFlows ss ServiceFlow.SF_TYPE_UGS)
  ++ flow_rungs 5 (rtps_condition ss heap) (GetServiceFlows ss ServiceFlow.SF_TYPE_RTPS)
  ++ flow_rungs 6 (nrtps_condition heap) (GetServiceFlows ss ServiceFlow.SF_TYPE_NRTPS)
  ++ flow_rungs 7 (be_condition heap) (GetServiceFlows ss ServiceFlow.SF_TYPE_BE)
  ++ [connection_rung 8 heap (GetBroadcastConnection ss)].

(** First match wins: the first rung whose condition holds, with its
    position on the ladder. *)
Definition first_match (ladder : list Rung) : option (nat * Rung) :=
  list_find (fun r => eligible r = true) ladder.

(** The connection of the first match on a ladder, [otherwise] when no
    rung matches. *)
Definition pick (ladder : list Rung) (otherwise : option Ptr) : option Ptr :=
  match first_match ladder with
  | Some (_, r) => candidate r
  | None => otherwise
  end.

(** The conditions of the UGS and rtPS rungs as section 4.1 of the
    specification words them, with [>=]. *)
Definition ugs_condition_spec (ss : SubscriberStation) (heap : Heap) (sf : ServiceFlow_) : bool :=
  SF_HasPackets heap sf
  && (Now ss + GetFrameDuration >=? MilliSeconds (GetUnsolicitedGrantInterval sf)).
Definition rtps_condition_spec (ss : SubscriberStation) (heap : Heap) (sf : ServiceFlow_) : bool :=
  SF_HasPacketsOf heap HEADER_TYPE_GENERIC sf
  && (Now ss + GetFrameDuration >=? MilliSeconds (GetUnsolicitedPollingInterval sf)).

(** The priority ladder of section 4.1 of the specification: the same
    rungs in the same order, the UGS and rtPS rungs with the conditions of
    the specification. *)
Definition priority_ladder_spec (ss : SubscriberStation) (heap : Heap) : list Rung :=
  [connection_rung 1 heap (GetInitialRangingConnection ss);
   connection_rung 2 heap (GetBasicConnection ss);
   connection_rung 3 heap (GetPrimaryConnection ss)]
  ++ flow_rungs 4 (ugs_condition_spec ss heap) (GetServiceFlows ss ServiceFlow.SF_TYPE_UGS)
  ++ flow_rungs 5 (rtps_condition_spec ss heap) (GetServiceFlows ss ServiceFlow.SF_TYPE_RTPS)
  ++ flow_rungs 6 (nrtps_condition heap) (GetServiceFlows ss ServiceFlow.SF_TYPE_NRTPS)
  ++ flow_rungs 7 (be_condition heap) (GetServiceFlows ss ServiceFlow.SF_TYPE_BE)
  ++ [connection_rung 8 heap (GetBroadcastConnection ss)].

(** The deadline tests as the specification words them, with [>=]. *)
Definition ugs_eligible_spec (ss : SubscriberStation) (heap : Heap) (sf : ServiceFlow_) : Prop :=
  SF_HasPackets heap sf = true
  /\ Now ss + GetFrameDuration >= MilliSeconds (GetUnsolicitedGrantInterval sf).
Definition rtps_eligible_spec (ss : SubscriberStation) (heap : Heap) (sf : ServiceFlow_) : Prop :=
  SF_HasPacketsOf heap HEADER_TYPE_GENERIC sf = true
  /\ Now ss + GetFrameDuration >= MilliSeconds (GetUnsolicitedPollingInterval sf).

(** The station with another registry of service flows. *)
Definition with_flows (ss : SubscriberStation) (flows : list ServiceFlow_) : SubscriberStation :=
  {| GetInitialRangingConnection := GetInitialRangingConnection ss;
     GetBasicConnection := GetBasicConnection ss;
     GetPrimaryConnection := GetPrimaryConnection ss;
     GetBroadcastConnection := GetBroadcastConnection ss;
     m_flows := flows;
     Now := Now ss |}.

(** The subtraction the specification asks for: held at zero. *)
Definition subtract_symbols_saturating (availableSymbols : Z) (packet : Packet)
    (m : ModulationType) : Z :=
  Z.max 0 (availableSymbols - nrSymbolsRequired packet m).

(** The connection the loop of [Schedule] runs on: the one the caller
    passed, or the one [SelectConnection] picks. *)
Definition scheduled (ss : SubscriberStation) (connection : option Ptr) (heap : Heap)
  : option Ptr :=
  match connection with
  | Some c => Some c
  | None => SelectConnection ss heap
  end.

(** [n] successive calls of [Schedule], each on the connection reference
    and the heap the call before left; the bursts in order. *)
Fixpoint Schedule_calls (n fuel : nat) (ss : SubscriberStation) (availableSymbols : Z)
    (modulationType : ModulationType) (packetType : HeaderType)
    (connection : option Ptr) (heap : Heap)
  : option (list (list Packet) * option Ptr * Heap) :=
  match n with
  | O => Some ([], connection, heap)
  | S n' =>
      match Schedule fuel ss availableSymbols modulationType packetType connection heap with
      | Some (Returned burst connection' heap') =>
          match Schedule_calls n' fuel ss availableSymbols modulationType packetType
                  connection' heap' with
          | Some (bursts, connection'', heap'') => Some (burst :: bursts, connection'', heap'')
          | None => None
          end
      | _ => None
      end
  end.

(** [n] whole packets of header type [t] taken from a queue one after the
    other, with the plain [Dequeue]. *)
Fixpoint Dequeue_whole (t : HeaderType) (n : nat) (q : Queue) : list Packet * Queue :=
  match n with
  | O => ([], q)
  | S n' =>
      let '(packet, q') := Dequeue t q in
      let '(packets, q'') := Dequeue_whole t n' q' in
      (packet :: packets, q'')
  end.

End Scheduler.

Arguments Appended {mq} _ _ _.
Arguments Break {mq}.
Arguments AssertFailed {mq}.
Arguments Returned {mq} _ _ _.

(** ** The contracts of the collaborators *)

(** What section 6 of the specification asks of the PHY, and no more:
    [bytes_for] is monotone in the symbols, and [symbols_for] rounds up,
    "the only rule is [bytes_for(symbols_for(b, m), m) >= b]". *)
Definition PhyInterfaceContract (phy : WimaxPhy) : Prop :=
  (forall s s' m, s <= s' -> GetNrBytes s m <= GetNrBytes s' m)
  /\ (forall b m, 0 <= b -> b <= GetNrBytes (GetNrSymbols b m) m).

(** A PHY whose [GetNrSymbols] is the exact rounding-up inverse of
    [GetNrBytes]: the least number of symbols that carries the bytes, and
    no more symbols for two packets together than for each alone. *)
Class WimaxPhyLaws (phy : WimaxPhy) : Prop := {
  GetNrBytes_nonneg : forall s m, 0 <= s -> 0 <= GetNrBytes s m;
  GetNrSymbols_nonneg : forall b m, 0 <= b -> 0 <= GetNrSymbols b m;
  GetNrSymbols_least :
    forall b s m, 0 <= b -> 0 <= s -> b <= GetNrBytes s m -> GetNrSymbols b m <= s;
  GetNrSymbols_subadditive :
    forall a b m, 0 <= a -> 0 <= b ->
      GetNrSymbols (a + b) m <= GetNrSymbols a m + GetNrSymbols b m
}.

(** A queue that keeps its promises, on the queues that satisfy [ok]: the
    whole packet it hands out is no longer than the bytes it reported, a
    fragment is no longer than the cap, and every dequeue the scheduler asks
    for takes something out of the queue ([weight] goes down). *)
Record WimaxMacQueueLaws (mq : WimaxMacQueue) (ok : Queue -> Prop) (weight : Queue -> nat)
  : Prop := {
  Dequeue_ok : forall t q, ok q -> IsEmptyOf t q = false -> ok (Dequeue t q).2;
  Dequeue_size : forall t q, ok q -> IsEmptyOf t q = false ->
    u32 (GetSize (Dequeue t q).1) <= requiredByte t q;
  Dequeue_weight : forall t q, ok q -> IsEmptyOf t q = false ->
    (weight (Dequeue t q).2 < weight q)%nat;
  DequeueFragment_ok : forall t cap q, ok q -> IsEmptyOf t q = false ->
    headerSize t q < cap < requiredByte t q -> ok (DequeueFragment t cap q).2;
  DequeueFragment_size : forall t cap q, ok q -> IsEmptyOf t q = false ->
    headerSize t q < cap < requiredByte t q -> u32 (GetSize (DequeueFragment t cap q).1) <= cap;
  DequeueFragment_weight : forall t cap q, ok q -> IsEmptyOf t q = false ->
    headerSize t q < cap < requiredByte t q ->
    (weight (DequeueFragment t cap q).2 < weight q)%nat
}.

(** The byte length of a burst ([PacketBurst::GetSize]). *)
Definition total_bytes {mq : WimaxMacQueue} (burst : list Packet) : Z :=
  foldr (fun packet n => u32 (GetSize packet) + n) 0 burst.

(** ** A PHY to run the scheduler on *)

(** Modelled from the spec: a PHY with one modulation, [bytesPerSymbol]
    bytes in a symbol, that sends symbols in blocks of [symbolsPerBlock]:
    [GetNrBytes] is what the symbols carry, [GetNrSymbols] rounds the bytes
    up to whole blocks. *)
Definition BlockPhy (bytesPerSymbol symbolsPerBlock : Z) (frameDuration : Time) : WimaxPhy := {|
  ModulationType := unit;
  GetNrBytes := fun symbols _ => bytesPerSymbol * symbols;
  GetNrSymbols := fun size _ =>
    let blockSize := bytesPerSymbol * symbolsPerBlock in
    symbolsPerBlock * ((size + blockSize - 1) / blockSize);
  GetFrameDuration := frameDuration
|}.

(** ** A queue to run the scheduler on *)

Module ListQueue.

(** Modelled from the spec: a FIFO of SDUs, each with its header type, the
    bytes of its MAC header and of its payload still to send, and whether a
    fragmentation of it is in progress. *)
Record QueueElement := {
  m_hdrType : HeaderType;
  m_hdrSize : Z;
  m_payload : Z;
  m_fragmentation : bool
}.

(** Modelled from the spec: a packet as the scheduler sees it, its byte
    size, and whether it is a fragment. *)
Record Pkt := {
  pkt_hdrType : HeaderType;
  pkt_size : Z;
  pkt_fragment : bool
}.

(** Modelled from the spec: the head-of-line packet of a header type. *)
Fixpoint Front (t : HeaderType) (q : list QueueElement) : option QueueElement :=
  match q with
  | [] => None
  | e :: q' => if MacHeaderType.HeaderType_eqb (m_hdrType e) t then Some e else Front t q'
  end.

(** Modelled from the spec: the queue without that head-of-line packet. *)
Fixpoint Pop (t : HeaderType) (q : list QueueElement) : list QueueElement :=
  match q with
  | [] => []
  | e :: q' => if MacHeaderType.HeaderType_eqb (m_hdrType e) t then q' else e :: Pop t q'
  end.

(** Modelled from the spec: the queue with that head-of-line packet
    replaced, in place. *)
Fixpoint SetFront (t : HeaderType) (e' : QueueElement) (q : list QueueElement)
  : list QueueElement :=
  match q with
  | [] => []
  | e :: q' => if MacHeaderType.HeaderType_eqb (m_hdrType e) t then e' :: q' else e :: SetFront t e' q'
  end.

(** Modelled from the spec: the header bytes of the head packet, with the
    2 bytes of the fragment sub-header once a fragmentation is in
    progress. *)
Definition HdrSize (e : QueueElement) : Z :=
  m_hdrSize e + (if m_fragmentation e then 2 else 0).

(** Modelled from the spec: "the number of bytes needed to send the whole
    head packet, including its MAC header and any already-pending fragment
    sub-header". *)
Definition RequiredByte (e : QueueElement) : Z := HdrSize e + m_payload e.

(** Modelled from the spec: what a dequeue on a queue without such a
    packet hands out (the scheduler never asks for it). *)
Definition null : Pkt :=
  {| pkt_hdrType := HEADER_TYPE_GENERIC; pkt_size := 0; pkt_fragment := false |}.

(** Modelled from the spec: "[dequeue(header_type)]: whole packet". *)
Definition list_Dequeue (t : HeaderType) (q : list QueueElement) : Pkt * list QueueElement :=
  match Front t q with
  | Some e =>
      ({| pkt_hdrType := t; pkt_size := RequiredByte e; pkt_fragment := m_fragmentation e |},
       Pop t q)
  | None => (null, q)
  end.

(** Modelled from the spec: "[dequeue(header_type, cap_bytes)]: fragment
    sized to [<= cap_bytes]"; "the queue implementation synthesizes the
    fragment sub-header and returns a partial SDU"; the rest of the payload
    stays at the front, its fragmentation in progress. *)
Definition list_DequeueFragment (t : HeaderType) (cap : Z) (q : list QueueElement)
  : Pkt * list QueueElement :=
  match Front t q with
  | Some e =>
      let sent := cap - (m_hdrSize e + 2) in
      ({| pkt_hdrType := t; pkt_size := cap; pkt_fragment := true |},
       SetFront t {| m_hdrType := m_hdrType e; m_hdrSize := m_hdrSize e;
                     m_payload := m_payload e - sent; m_fragmentation := true |} q)
  | None => (null, q)
  end.

Definition option_elim {A} (f : QueueElement -> A) (d : A) (o : option QueueElement) : A :=
  match o with Some e => f e | None => d end.

(** Modelled from the spec: the list queue behind the queue interface. *)
#[export] Instance queue : WimaxMacQueue :=
  Build_WimaxMacQueue (list QueueElement) Pkt pkt_size
    (fun q => match q with [] => true | _ => false end)
    (fun t q => match Front t q with Some _ => false | None => true end)
    (fun t q => option_elim RequiredByte 0 (Front t q))
    (fun t q => option_elim HdrSize 0 (Front t q))
    (fun t q => option_elim m_fragmentation false (Front t q))
    list_Dequeue list_DequeueFragment.

(** The elements a station can hold: sizes that are not negative and fit
    32 bits, sub-header included. *)
Definition element_ok (e : QueueElement) : Prop :=
  0 <= m_hdrSize e /\ 0 <= m_payload e /\ m_hdrSize e + 2 + m_payload e < 4294967296.
Definition well_formed (q : list QueueElement) : Prop := Forall element_ok q.

(** The payload still queued, and one for every element. *)
Definition backlog (q : list QueueElement) : nat :=
  foldr (fun e n => S (Z.to_nat (m_payload e)) + n)%nat O q.

End ListQueue.

(** ** Stations to run the scheduler on *)

Module Scenarios.
Import ListQueue.

(** 12 bytes in a symbol and a frame of 5 ms; [phy_exact] counts symbols
    one by one, [phy_blocks] in blocks of two. *)
Definition phy_exact : WimaxPhy := BlockPhy 12 1 5000000.
Definition phy_blocks : WimaxPhy := BlockPhy 12 2 5000000.

(** An SDU with a 6-byte MAC header, and an SDU of no bytes at all. *)
Definition sdu (t : HeaderType) (payload : Z) : QueueElement :=
  {| m_hdrType := t; m_hdrSize := 6; m_payload := payload; m_fragmentation := false |}.
Definition empty_sdu (t : HeaderType) : QueueElement :=
  {| m_hdrType := t; m_hdrSize := 0; m_payload := 0; m_fragmentation := false |}.

Definition connection (ty : Cid.Type_) (q : list QueueElement) : WimaxConnection :=
  {| GetType := ty; GetQueue := q |}.

(** The heap of a station: the initial ranging, basic, primary and
    broadcast connections at 0 to 3, the TRANSPORT connections from 4 on. *)
Definition heap_of (ranging basic primary broadcast : list QueueElement)
    (transport : list (list QueueElement)) : Heap :=
  fun p =>
    match p with
    | 0 => connection Cid.INITIAL_RANGING ranging
    | 1 => connection Cid.BASIC basic
    | 2 => connection Cid.PRIMARY primary
    | 3 => connection Cid.BROADCAST broadcast
    | S (S (S (S n))) => connection Cid.TRANSPORT (nth n transport [])
    end%nat.

Definition station (flows : list ServiceFlow_) (now : Time) : SubscriberStation :=
  {| GetInitialRangingConnection := 0%nat;
     GetBasicConnection := 1%nat;
     GetPrimaryConnection := 2%nat;
     GetBroadcastConnection := 3%nat;
     m_flows := flows;
     Now := now |}.

Definition flow (ty : ServiceFlow.SchedulingType) (c : Ptr) (interval : Z) : ServiceFlow_ :=
  {| GetSchedulingType := ty;
     GetConnection := Some c;
     GetUnsolicitedGrantInterval := interval;
     GetUnsolicitedPollingInterval := interval |}.

(** A station with nothing to send. *)
Definition idle_heap : Heap := heap_of [] [] [] [] [].
Definition idle_station : SubscriberStation := station [] 0.

(** Two packets of 24 and 50 bytes on the basic connection. *)
Definition basic_heap : Heap :=
  heap_of [] [sdu HEADER_TYPE_GENERIC 18; sdu HEADER_TYPE_GENERIC 44] [] [] [].

(** A packet of no bytes at the head of the basic connection. *)
Definition degenerate_heap : Heap :=
  heap_of [] [empty_sdu HEADER_TYPE_GENERIC; sdu HEADER_TYPE_GENERIC 44] [] [] [].

(** A best-effort flow with one packet of 1500 bytes. *)
Definition be_station : SubscriberStation := station [flow ServiceFlow.SF_TYPE_BE 4%nat 0] 0.
Definition be_heap : Heap := heap_of [] [] [] [] [[sdu HEADER_TYPE_GENERIC 1494]].

(** A best-effort flow with packets of 12 and 106 bytes. *)
Definition small_heap : Heap :=
  heap_of [] [] [] [] [[sdu HEADER_TYPE_GENERIC 6; sdu HEADER_TYPE_GENERIC 100]].

(** A UGS flow whose grant interval, 5 ms, is exactly [now] plus the frame
    duration. *)
Definition ugs_flow : ServiceFlow_ := flow ServiceFlow.SF_TYPE_UGS 4%nat 5.
Definition ugs_station : SubscriberStation := station [ugs_flow] 0.
Definition ugs_heap : Heap := heap_of [] [] [] [] [[sdu HEADER_TYPE_GENERIC 100]].

(** Scenario S1: a 40-byte packet on the initial ranging connection and
    the 1500-byte packet of the best-effort flow. *)
Definition ranging_heap : Heap :=
  heap_of [sdu HEADER_TYPE_GENERIC 34] [] [] [] [[sdu HEADER_TYPE_GENERIC 1494]].

(** Scenario S5: a UGS flow whose grant interval is far away, and an rtPS
    flow that is due, both with packets. *)
Definition rtps_station : SubscriberStation :=
  station [flow ServiceFlow.SF_TYPE_UGS 4%nat 1000; flow ServiceFlow.SF_TYPE_RTPS 5%nat 1] 0.
Definition rtps_heap : Heap :=
  heap_of [] [] [] [] [[sdu HEADER_TYPE_GENERIC 100]; [sdu HEADER_TYPE_GENERIC 200]].

(** A TRANSPORT connection that holds a bandwidth request only. *)
Definition request_heap : Heap :=
  heap_of [] [] [] [] [[sdu HEADER_TYPE_BANDWIDTH 0]].

End Scenarios.

(** The symbols the loop charges for a burst, packet by packet. *)
Definition burst_symbols {phy : WimaxPhy} {mq : WimaxMacQueue} (burst : list Packet)
    (m : ModulationType) : Z :=
  foldr (fun packet n => GetNrSymbols (u32 (GetSize packet)) m + n) 0 burst.

(** * The fat-tree script

    The helper functions of [FatTreeTopology] (fattree-sim/fattree.cc) that
    compute with indices, ports and subnet numbers.  Nodes, devices and
    interfaces are named by their position in the container that holds
    them. *)

Module FatTree.
Import stdpp.gmap.
Local Open Scope Z_scope.

(** ** Global topology parameters *)

Definition NUM_SERVERS : Z := 320.
Definition NUM_RACKS : Z := 20.
Definition SERVERS_PER_RACK : Z := NUM_SERVERS / NUM_RACKS.
Definition NUM_AGG_SWITCHES : Z := 20.
Definition NUM_CORE_SWITCHES : Z := 16.
Definition INCAST_SENDERS : Z := 64.

(** What a function with an [NS_ASSERT] and a [std::vector] access ends
    in: the failed assertion, an access beyond the end of a vector, or a
    value. *)
Inductive Outcome (A : Type) :=
| Aborted
| OutOfRange
| Value (a : A).
Arguments Aborted {A}.
Arguments OutOfRange {A}.
Arguments Value {A} _.

(** ** [GetServer] and [GetServerAddress] *)

(** [FatTreeTopology::GetServer]: the server is named by its index in
    [m_servers]. *)
Definition GetServer (rack position : Z) : Outcome Z :=
  if negb (rack <? NUM_RACKS) then Aborted
  else if negb (position <? SERVERS_PER_RACK) then Aborted
  else
    let serverIndex := u32 (u32 (rack * SERVERS_PER_RACK) + position) in
    Value serverIndex.

(** The rack and the position [StartBackgroundFlow] and [StartIncast]
    compute from a server index. *)
Definition receiverRack (receiverIdx : Z) : Z := receiverIdx / SERVERS_PER_RACK.
Definition receiverPos (receiverIdx : Z) : Z := receiverIdx mod SERVERS_PER_RACK.

(** [FatTreeTopology::GetServerAddress]: [m_serverInterfaces] is a vector
    of interface containers, a container the list of its addresses;
    [any] is [Ipv4Address("0.0.0.0")]. *)
Definition GetServerAddress {Ipv4Address : Type} (any : Ipv4Address)
    (m_serverInterfaces : list (list Ipv4Address)) (rack position : Z)
  : Outcome Ipv4Address :=
  if negb (rack <? NUM_RACKS) then Aborted
  else if negb (position <? SERVERS_PER_RACK) then Aborted
  else
    let interfaceIndex := u32 (position * 2) in
    match m_serverInterfaces !! Z.to_nat rack with
    | None => OutOfRange
    | Some interfaces =>
        if interfaceIndex >=? Z.of_nat (length interfaces) then Value any
        else
          match interfaces !! Z.to_nat interfaceIndex with
          | Some addr => Value addr
          | None => OutOfRange
          end
    end.

(** ** [GetUniquePort] *)

(** [FatTreeTopology::GetUniquePort]: [m_receiverPortMap] maps a receiver
    to the [uint16_t] port it was given last; the call returns the port
    and the map it leaves. *)
Definition GetUniquePort (receiverIdx : Z) (isTcp : bool) (m_receiverPortMap : gmap Z Z)
  : Z * gmap Z Z :=
  let basePort := if isTcp then 8000 else 9000 in
  let m_receiverPortMap :=
    match m_receiverPortMap !! receiverIdx with
    | None => <[receiverIdx := u16 (u32 (basePort + receiverIdx))]> m_receiverPortMap
    | Some port => <[receiverIdx := u16 (port + 1)]> m_receiverPortMap
    end in
  (m_receiverPortMap !!! receiverIdx, m_receiverPortMap).

(** The port a receiver is given next: one more than its last, or the base
    port of the protocol plus its index the first time. *)
Definition next_port (receiverIdx : Z) (isTcp : bool) (m_receiverPortMap : gmap Z Z) : Z :=
  match m_receiverPortMap !! receiverIdx with
  | Some port => port + 1
  | None => (if isTcp then 8000 else 9000) + receiverIdx
  end.

(** Calls of [GetUniquePort] one after the other, each on the map the call
    before left; the ports in order. *)
Fixpoint GetUniquePort_calls (calls : list (Z * bool)) (m_receiverPortMap : gmap Z Z)
  : list Z * gmap Z Z :=
  match calls with
  | [] => ([], m_receiverPortMap)
  | (receiverIdx, isTcp) :: calls' =>
      let '(port, m_receiverPortMap) := GetUniquePort receiverIdx isTcp m_receiverPortMap in
      let '(ports, m_receiverPortMap) := GetUniquePort_calls calls' m_receiverPortMap in
      (port :: ports, m_receiverPortMap)
  end.

(** ** [GetRandomServerPair] *)

(** [m_uniformRandom->GetInteger(0, NUM_SERVERS - 1)]: the random variable
    is the tape of the integers it is going to return; [None] when the tape
    has run out. *)
Definition GetInteger (tape : list Z) : option (Z * list Z) :=
  match tape with
  | [] => None
  | value :: tape' => Some (value, tape')
  end.

(** The [do ... while (receiver == sender)] loop. *)
Fixpoint draw_receiver (sender : Z) (tape : list Z) : option (Z * list Z) :=
  match tape with
  | [] => None
  | receiver :: tape' =>
      if receiver =? sender then draw_receiver sender tape' else Some (receiver, tape')
  end.

(** [FatTreeTopology::GetRandomServerPair]: the pair, and the tape that is
    left. *)
Definition GetRandomServerPair (tape : list Z) : option ((Z * Z) * list Z) :=
  match GetInteger tape with
  | None => None
  | Some (sender, tape') =>
      match draw_receiver sender tape' with
      | None => None
      | Some (receiver, tape'') => Some ((sender, receiver), tape'')
      end
  end.

(** ** The senders of [StartIncast] *)

(** The [availableSenders] vector: every server but the receiver, in
    order. *)
Definition availableSenders (receiverIdx : Z) : list Z :=
  filter (fun i => i <> receiverIdx) (seqZ 0 NUM_SERVERS).

(** What a call of [StartIncast] that gets past the test of the address
    sets up: the port of the sink on the receiver, and the servers it
    starts a source on, in order. *)
Record Incast := {
  port : Z;
  senders : list Z
}.

(** [FatTreeTopology::StartIncast], for the receiver [GetInteger] drew:
    what the call sets up, and the port map it leaves.  [m_servers] holds
    the [NUM_SERVERS] servers, [shuffle] is [std::random_shuffle].  With
    the address [0.0.0.0] for the receiver the function returns at once:
    no port is taken, no sink and no source is started (and the next
    incast is not scheduled), which is [None]. *)
Definition StartIncast {Ipv4Address : Type} `{!EqDecision Ipv4Address} (any : Ipv4Address)
    (m_serverInterfaces : list (list Ipv4Address)) (shuffle : list Z -> list Z)
    (receiverIdx : Z) (m_receiverPortMap : gmap Z Z)
  : Outcome (option Incast * gmap Z Z) :=
  if negb (receiverIdx <? NUM_SERVERS) then OutOfRange
  else
    let receiverRack := u32 (receiverIdx / SERVERS_PER_RACK) in
    let receiverPos := u32 (receiverIdx mod SERVERS_PER_RACK) in
    match GetServerAddress any m_serverInterfaces receiverRack receiverPos with
    | Aborted => Aborted
    | OutOfRange => OutOfRange
    | Value receiverAddr =>
        if decide (receiverAddr = any) then Value (None, m_receiverPortMap)
        else
          let '(port, m_receiverPortMap) := GetUniquePort receiverIdx true m_receiverPortMap in
          let availableSenders := shuffle (availableSenders receiverIdx) in
          let numSenders := Z.min INCAST_SENDERS (u32 (Z.of_nat (length availableSenders))) in
          let senders := (fun i => availableSenders !!! Z.to_nat i) <$> seqZ 0 numSenders in
          Value (Some {| port := port; senders := senders |}, m_receiverPortMap)
    end.

(** ** The subnets of [AssignIpAddresses] *)

(** The network of a point-to-point link, as the four numbers the string
    is put together from, and the link it is for. *)
Record LinkNetwork := {
  link_from : Z;
  link_to : Z;
  network : Z * Z * Z * Z
}.

(** The network of the link with subnet counter [subnet]:
    ["a.b." + to_string(subnet / 64) + "." + to_string((subnet % 64) * 4)]. *)
Definition link_network (a b subnet : Z) : Z * Z * Z * Z :=
  (a, b, subnet / 64, u32 ((subnet mod 64) * 4)).

(** The two nested loops over the links between two layers, with their
    subnet counter. *)
Definition assign_link_networks (a b : Z) (outer inner : Z) : list LinkNetwork :=
  snd (foldl
         (fun st from =>
            foldl
              (fun '(subnet, assigned) to =>
                 (u32 (subnet + 1),
                  assigned ++ [{| link_from := from; link_to := to;
                                  network := link_network a b subnet |}]))
              st (seqZ 0 inner))
         (0, []) (seqZ 0 outer)).

Definition torAggNetworks : list LinkNetwork :=
  assign_link_networks 172 16 NUM_RACKS NUM_AGG_SWITCHES.
Definition aggCoreNetworks : list LinkNetwork :=
  assign_link_networks 192 168 NUM_AGG_SWITCHES NUM_CORE_SWITCHES.

(** The networks of the racks: ["10.0." + to_string(rack) + ".0"]. *)
Definition rackNetworks : list (Z * Z * Z * Z) :=
  (fun rack => (10, 0, rack, 0)) <$> seqZ 0 NUM_RACKS.

(** ** The links of [ConfigureLinks] *)

Inductive Node := Server (i : Z) | Tor (i : Z) | Agg (i : Z) | Core (i : Z).

(** A point-to-point device: the node it is installed on and the node at
    the other end of its channel. *)
Record NetDevice := {
  device_node : Node;
  device_peer : Node
}.

#[export] Instance Node_eq_dec : EqDecision Node.
Proof. solve_decision. Defined.

#[export] Instance NetDevice_eq_dec : EqDecision NetDevice.
Proof. solve_decision. Defined.

(** The device of node [a] on its link to node [b]. *)
Definition device (a b : Node) : NetDevice := {| device_node := a; device_peer := b |}.

(** [PointToPointHelper::Install (a, b)]: the container with the device of
    [a] and the device of [b], in that order. *)
Definition Install (a b : Node) : list NetDevice :=
  [{| device_node := a; device_peer := b |}; {| device_node := b; device_peer := a |}].

(** One of the three loop nests of [ConfigureLinks]: the vector is resized
    to [outer] empty containers, and every link is added to the container
    of its outer index. *)
Definition connect (outer inner : Z) (first second : Z -> Z -> Node) : list (list NetDevice) :=
  foldl
    (fun links o =>
       foldl
         (fun links i => alter (fun c => c ++ Install (first o i) (second o i)) (Z.to_nat o) links)
         links (seqZ 0 inner))
    (replicate (Z.to_nat outer) []) (seqZ 0 outer).

Definition m_serverTorLinks : list (list NetDevice) :=
  connect NUM_RACKS SERVERS_PER_RACK
    (fun rack server => Server (u32 (u32 (rack * SERVERS_PER_RACK) + server)))
    (fun rack _ => Tor rack).
Definition m_torAggLinks : list (list NetDevice) :=
  connect NUM_RACKS NUM_AGG_SWITCHES (fun tor _ => Tor tor) (fun _ agg => Agg agg).
Definition m_aggCoreLinks : list (list NetDevice) :=
  connect NUM_AGG_SWITCHES NUM_CORE_SWITCHES (fun agg _ => Agg agg) (fun _ core => Core core).

(** [m_links[outer].Get (index)]. *)
Definition Get (links : list (list NetDevice)) (o : Z) (index : Z) : option NetDevice :=
  links !! Z.to_nat o ≫= fun c => c !! Z.to_nat index.

End FatTree.

Module MoreScenarios.
Import ListQueue Scenarios.

(** The basic connection of [basic_heap] once its 24-byte packet is
    gone. *)
Definition basic_heap_after : Heap :=
  <[1%nat := connection Cid.BASIC [sdu HEADER_TYPE_GENERIC 44]]> basic_heap.

Definition packet24 : Pkt :=
  {| pkt_hdrType := HEADER_TYPE_GENERIC; pkt_size := 24; pkt_fragment := false |}.

(** An rtPS flow with a GENERIC packet whose polling interval, 5 ms, is
    exactly [now] plus the frame duration, and a packet on the broadcast
    connection. *)
Definition rtps_flow : ServiceFlow_ := flow ServiceFlow.SF_TYPE_RTPS 4%nat 5.
Definition deadline_station : SubscriberStation := station [rtps_flow] 0.
Definition deadline_heap : Heap :=
  heap_of [] [] [] [sdu HEADER_TYPE_GENERIC 20] [[sdu HEADER_TYPE_GENERIC 100]].

(** Twenty racks of 32 interface addresses each. *)
Definition interfaces : list (list Z) :=
  (fun rack => (fun i => rack * 256 + i) <$> seqZ 1 32) <$> seqZ 0 20.

End MoreScenarios.

(** * Properties of the scheduler *)

Lemma u16_range z : 0 <= u16 z < 65536.
Proof. unfold u16. apply Z.mod_pos_bound. lia. Qed.

Lemma u32_range z : 0 <= u32 z < 4294967296.
Proof. unfold u32. apply Z.mod_pos_bound. lia. Qed.

Lemma u16_small z : 0 <= z < 65536 -> u16 z = z.
Proof. intros. unfold u16. apply Z.mod_small. lia. Qed.

Lemma u32_small z : 0 <= z < 4294967296 -> u32 z = z.
Proof. intros. unfold u32. apply Z.mod_small. lia. Qed.

Lemma u32_le z : 0 <= z -> u32 z <= z.
Proof. intros. unfold u32. apply Z.mod_le; lia. Qed.

Lemma u16_wrap z : -65536 <= z < 0 -> u16 z = z + 65536.
Proof.
  intros. unfold u16.
  rewrite <- (Z.mod_small (z + 65536) 65536) by lia.
  replace (z + 65536) with (z + 1 * 65536) by lia.
  now rewrite Z.mod_add by lia.
Qed.

Section SchedulerProperties.
Context {phy : WimaxPhy} {mq : WimaxMacQueue}.

Implicit Types (heap : Heap) (c : Ptr) (q : Queue) (t : HeaderType) (m : ModulationType).

(** ** The loop, one pass at a time *)

Lemma heap_lookup_insert heap c (conn : WimaxConnection) : (<[c := conn]> heap) c = conn.
Proof. apply fn_lookup_insert. Qed.

Lemma heap_lookup_insert_ne heap c c' (conn : WimaxConnection) :
  c <> c' -> (<[c := conn]> heap) c' = heap c'.
Proof. apply fn_lookup_insert_ne. Qed.

Lemma Schedule_loop_done fuel a m t c heap burst :
  HasPacketsOf t (heap c) = false ->
  Schedule_loop fuel a m t (Some c) heap burst = Some (burst, a, heap).
Proof. intros H. destruct fuel; simpl; now rewrite H. Qed.

Lemma Schedule_loop_null fuel a m t heap burst :
  Schedule_loop fuel a m t None heap burst = Some (burst, a, heap).
Proof. now destruct fuel. Qed.

Lemma Schedule_loop_break fuel a m t c heap burst :
  Schedule_iteration a m t (heap c) = Break ->
  Schedule_loop (S fuel) a m t (Some c) heap burst = Some (burst, a, heap).
Proof. intros H. simpl. rewrite H. now destruct (HasPacketsOf t (heap c)). Qed.

Lemma Schedule_loop_appended fuel a m t c heap burst packet a' q' :
  HasPacketsOf t (heap c) = true ->
  Schedule_iteration a m t (heap c) = Appended packet a' q' ->
  Schedule_loop (S fuel) a m t (Some c) heap burst
  = Schedule_loop fuel a' m t (Some c) (<[c := SetQueue (heap c) q']> heap) (burst ++ [packet]).
Proof. intros Hp Hi. simpl. now rewrite Hp, Hi. Qed.

(** The burst only grows: what was packed stays at the front. *)
Lemma Schedule_loop_prefix fuel : forall a m t connection heap burst burst' a' heap',
  Schedule_loop fuel a m t connection heap burst = Some (burst', a', heap') ->
  exists rest, burst' = burst ++ rest.
Proof.
  induction fuel as [|fuel IH]; intros a m t [c|] heap burst burst' a' heap' H; simpl in H.
  - destruct (HasPacketsOf t (heap c)); [discriminate|].
    injection H as <- _ _. exists []. now rewrite app_nil_r.
  - injection H as <- _ _. exists []. now rewrite app_nil_r.
  - destruct (HasPacketsOf t (heap c)).
    + destruct (Schedule_iteration a m t (heap c)) as [packet a1 q1|].
      * apply IH in H as [rest ->]. exists (packet :: rest). now rewrite <- app_assoc.
      * injection H as <- _ _. exists []. now rewrite app_nil_r.
    + injection H as <- _ _. exists []. now rewrite app_nil_r.
  - injection H as <- _ _. exists []. now rewrite app_nil_r.
Qed.

(** The two ways a pass appends a packet. *)
Lemma Schedule_iteration_whole a m t conn :
  availableByte a m >= requiredByte t (GetQueue conn) ->
  Schedule_iteration a m t conn
  = Appended (Dequeue t (GetQueue conn)).1
      (subtract_symbols a (Dequeue t (GetQueue conn)).1 m) (Dequeue t (GetQueue conn)).2.
Proof.
  intros H. unfold Schedule_iteration.
  destruct (Z.geb_spec (availableByte a m) (requiredByte t (GetQueue conn))); [|lia].
  now destruct (Dequeue t (GetQueue conn)).
Qed.

Lemma Schedule_iteration_fragment a m t conn :
  availableByte a m < requiredByte t (GetQueue conn) ->
  GetType conn = Cid.TRANSPORT ->
  availableByte a m > headerSize t (GetQueue conn) ->
  Schedule_iteration a m t conn
  = Appended (DequeueFragment t (availableByte a m) (GetQueue conn)).1
      (subtract_symbols a (DequeueFragment t (availableByte a m) (GetQueue conn)).1 m)
      (DequeueFragment t (availableByte a m) (GetQueue conn)).2.
Proof.
  intros H Ht Hh. unfold Schedule_iteration. rewrite Ht. simpl.
  destruct (Z.geb_spec (availableByte a m) (requiredByte t (GetQueue conn))); [lia|].
  destruct (Z.gtb_spec (availableByte a m) (headerSize t (GetQueue conn))); [|lia].
  now destruct (DequeueFragment t (availableByte a m) (GetQueue conn)).
Qed.

Lemma Schedule_iteration_no_room a m t conn :
  availableByte a m < requiredByte t (GetQueue conn) ->
  GetType conn = Cid.TRANSPORT ->
  availableByte a m <= headerSize t (GetQueue conn) ->
  Schedule_iteration a m t conn = Break.
Proof.
  intros H Ht Hh. unfold Schedule_iteration. rewrite Ht. simpl.
  destruct (Z.geb_spec (availableByte a m) (requiredByte t (GetQueue conn))); [lia|].
  destruct (Z.gtb_spec (availableByte a m) (headerSize t (GetQueue conn))); [lia|].
  reflexivity.
Qed.

Lemma Schedule_iteration_management a m t conn :
  availableByte a m < requiredByte t (GetQueue conn) ->
  GetType conn <> Cid.TRANSPORT ->
  Schedule_iteration a m t conn = Break.
Proof.
  intros H Ht. unfold Schedule_iteration.
  destruct (Z.geb_spec (availableByte a m) (requiredByte t (GetQueue conn))); [lia|].
  destruct (GetType conn); simpl; congruence.
Qed.

(** Every packet a pass appends pays [subtract_symbols]. *)
Lemma Schedule_iteration_cost a m t conn packet a' q' :
  Schedule_iteration a m t conn = Appended packet a' q' ->
  a' = subtract_symbols a packet m.
Proof.
  unfold Schedule_iteration. intros H.
  destruct (availableByte a m >=? requiredByte t (GetQueue conn)).
  - destruct (Dequeue t (GetQueue conn)). now injection H as <- <- _.
  - destruct (Cid.Type_eqb (GetType conn) Cid.TRANSPORT); [|discriminate].
    destruct (availableByte a m >? headerSize t (GetQueue conn)); [|discriminate].
    destruct (DequeueFragment t (availableByte a m) (GetQueue conn)).
    now injection H as <- <- _.
Qed.

(** ** The 16-bit symbol counter *)

(** C2 (amended): each time a pass of the loop appends a packet or a
    fragment, the symbol cost of the packet, as a 16-bit number, is
    subtracted from the 16-bit counter modulo 2^16.  The result is the
    exact difference when the cost does not exceed the counter; when it
    does, the counter wraps around to the difference plus 65536: it is not
    held at zero. *)
Theorem Schedule_subtraction_wraps a m t conn packet a' q' :
  0 <= a < 65536 ->
  Schedule_iteration a m t conn = Appended packet a' q' ->
  0 <= nrSymbolsRequired packet m < 65536
  /\ a' = (a - nrSymbolsRequired packet m) mod 65536
  /\ (nrSymbolsRequired packet m <= a -> a' = a - nrSymbolsRequired packet m)
  /\ (a < nrSymbolsRequired packet m -> a' = a - nrSymbolsRequired packet m + 65536).
Proof.
  intros Ha H. apply Schedule_iteration_cost in H. subst a'.
  pose proof (u16_range (GetNrSymbols (u32 (GetSize packet)) m)) as Hc.
  fold (nrSymbolsRequired packet m) in Hc.
  unfold subtract_symbols. repeat split; try lia.
  - intros Hle. apply u16_small. lia.
  - intros Hlt. apply u16_wrap. lia.
Qed.

(** ** The fragmentation branch *)

(** C5: on a TRANSPORT connection whose head packet does not fit
    ([A < R]), the header cost [H] is the queue's header size of the first
    packet plus 2 exactly when no fragmentation is in progress; when
    [A > H] the pass dequeues a fragment capped at [A] bytes and appends it,
    and the loop goes on; otherwise the pass breaks and the loop ends with
    the burst and the heap (so the head packet) as they were. *)
Theorem Schedule_fragmentation_branch fuel a m t c heap burst :
  HasPacketsOf t (heap c) = true ->
  GetType (heap c) = Cid.TRANSPORT ->
  availableByte a m < requiredByte t (GetQueue (heap c)) ->
  u32 (GetFirstPacketHdrSize t (GetQueue (heap c))) + 2 < 4294967296 ->
  headerSize t (GetQueue (heap c))
  = u32 (GetFirstPacketHdrSize t (GetQueue (heap c)))
    + (if CheckForFragmentation t (GetQueue (heap c)) then 0 else 2)
  /\ (availableByte a m > headerSize t (GetQueue (heap c)) ->
      Schedule_iteration a m t (heap c)
      = Appended (DequeueFragment t (availableByte a m) (GetQueue (heap c))).1
          (subtract_symbols a (DequeueFragment t (availableByte a m) (GetQueue (heap c))).1 m)
          (DequeueFragment t (availableByte a m) (GetQueue (heap c))).2
      /\ Schedule_loop (S fuel) a m t (Some c) heap burst
         = Schedule_loop fuel
             (subtract_symbols a (DequeueFragment t (availableByte a m) (GetQueue (heap c))).1 m)
             m t (Some c)
             (<[c := SetQueue (heap c)
                       (DequeueFragment t (availableByte a m) (GetQueue (heap c))).2]> heap)
             (burst ++ [(DequeueFragment t (availableByte a m) (GetQueue (heap c))).1]))
  /\ (availableByte a m <= headerSize t (GetQueue (heap c)) ->
      Schedule_iteration a m t (heap c) = Break
      /\ Schedule_loop (S fuel) a m t (Some c) heap burst = Some (burst, a, heap)).
Proof.
  intros Hp Ht Hlt Hh. split; [|split].
  - unfold headerSize.
    pose proof (u32_range (GetFirstPacketHdrSize t (GetQueue (heap c)))).
    destruct (CheckForFragmentation t (GetQueue (heap c))); simpl; [lia|].
    apply u32_small. lia.
  - intros Hgt.
    pose proof (Schedule_iteration_fragment a m t (heap c) Hlt Ht Hgt) as Hi.
    split; [exact Hi|]. now apply Schedule_loop_appended.
  - intros Hle.
    pose proof (Schedule_iteration_no_room a m t (heap c) Hlt Ht Hle) as Hi.
    split; [exact Hi|]. now apply Schedule_loop_break.
Qed.

(** ** A packet that needs no bytes *)


(** ** Calls that pack nothing *)

Lemma Schedule_calls_empty n : forall fuel ss a m t connection heap,
  Schedule fuel ss a m t connection heap = Some (Returned [] connection heap) ->
  Schedule_calls n fuel ss a m t connection heap = Some (replicate n [], connection, heap).
Proof.
  induction n as [|n IH]; intros fuel ss a m t connection heap H; simpl; [reflexivity|].
  rewrite H. now rewrite (IH _ _ _ _ _ _ _ H).
Qed.

(** C9: a call with a null connection reference for which
    [SelectConnection] finds no connection returns an empty burst, leaves
    the reference null and the heap (every queue) as it was; any number of
    such calls in a row each return an empty burst. *)
Theorem Schedule_no_connection fuel ss a m t heap :
  SelectConnection ss heap = None ->
  Schedule fuel ss a m t None heap = Some (Returned [] None heap)
  /\ forall n, Schedule_calls n fuel ss a m t None heap = Some (replicate n [], None, heap).
Proof.
  intros H.
  assert (Hs : Schedule fuel ss a m t None heap = Some (Returned [] None heap)).
  { unfold Schedule. rewrite H. now rewrite Schedule_loop_null. }
  split; [exact Hs|]. intros n. now apply Schedule_calls_empty.
Qed.

(** C10: the assertion of [Schedule] asks for packets of any header type,
    the loop for packets of [packetType]: a call on a connection that has
    packets, none of them of [packetType], passes the assertion and returns
    an empty burst, the heap (every queue) as it was. *)
Theorem Schedule_other_header_type fuel ss a m t c heap :
  HasPackets (heap c) = true ->
  HasPacketsOf t (heap c) = false ->
  Schedule fuel ss a m t (Some c) heap = Some (Returned [] (Some c) heap)
  /\ Schedule fuel ss a m t (Some c) heap <> Some AssertFailed.
Proof.
  intros Hany Ht.
  assert (Hs : Schedule fuel ss a m t (Some c) heap = Some (Returned [] (Some c) heap)).
  { unfold Schedule. rewrite Hany. now rewrite Schedule_loop_done. }
  split; [exact Hs|]. rewrite Hs. discriminate.
Qed.

(** C7 (amended): with a PHY that gives no bytes for no symbols, a call
    with [availableSymbols = 0] on a connection whose head packet needs at
    least one byte ([R > 0]) returns an empty burst and leaves the heap
    (every queue) as it was: the pass fails [A >= R] and, on a TRANSPORT
    connection, [A > H]. *)
Theorem Schedule_zero_symbols fuel ss m t connection heap :
  GetNrBytes 0 m = 0 ->
  (forall c, connection = Some c -> HasPackets (heap c) = true) ->
  (forall c, scheduled ss connection heap = Some c ->
             HasPacketsOf t (heap c) = true ->
             0 < requiredByte t (GetQueue (heap c))) ->
  Schedule (S fuel) ss 0 m t connection heap
  = Some (Returned [] (scheduled ss connection heap) heap).
Proof.
  intros HA Hcontract HR.
  assert (Hloop : forall c, scheduled ss connection heap = Some c ->
            Schedule_loop (S fuel) 0 m t (Some c) heap [] = Some ([], 0, heap)).
  { intros c Hc. destruct (HasPacketsOf t (heap c)) eqn:Hp.
    - apply Schedule_loop_break.
      specialize (HR c Hc Hp).
      assert (HA0 : availableByte 0 m = 0) by (unfold availableByte; now rewrite HA).
      pose proof (u32_range (GetFirstPacketHdrSize t (GetQueue (heap c)))).
      assert (0 <= headerSize t (GetQueue (heap c))).
      { unfold headerSize. destruct (negb _); [apply u32_range | lia]. }
      unfold Schedule_iteration. rewrite HA0.
      destruct (Z.geb_spec 0 (requiredByte t (GetQueue (heap c)))); [lia|].
      destruct (Cid.Type_eqb _ _); [|reflexivity].
      destruct (Z.gtb_spec 0 (headerSize t (GetQueue (heap c)))); [lia|reflexivity].
    - now apply Schedule_loop_done. }
  unfold Schedule. destruct connection as [c|].
  - rewrite (Hcontract c eq_refl). simpl scheduled in *.
    now rewrite (Hloop c eq_refl).
  - simpl scheduled in *. destruct (SelectConnection ss heap) as [c|].
    + now rewrite (Hloop c eq_refl).
    + now rewrite Schedule_loop_null.
Qed.

(** ** [SelectConnection] *)

Lemma first_flow_app cond l1 l2 otherwise :
  first_flow cond (l1 ++ l2) otherwise = first_flow cond l1 (first_flow cond l2 otherwise).
Proof. induction l1 as [|sf l1 IH]; simpl; [reflexivity|]. now destruct (cond sf). Qed.

Lemma first_flow_none cond flows otherwise :
  Forall (fun sf => cond sf = false) flows ->
  first_flow cond flows otherwise = otherwise.
Proof. induction 1 as [|sf l H _ IH]; simpl; [reflexivity|]. now rewrite H. Qed.

Lemma first_flow_first cond pre sf post otherwise :
  Forall (fun sf' => cond sf' = false) pre -> cond sf = true ->
  first_flow cond (pre ++ sf :: post) otherwise = GetConnection sf.
Proof.
  intros Hpre Hsf. rewrite first_flow_app, (first_flow_none _ _ _ Hpre). simpl.
  now rewrite Hsf.
Qed.

Lemma GetServiceFlows_app ss ty pre post :
  GetServiceFlows (with_flows ss (pre ++ post)) ty
  = GetServiceFlows (with_flows ss pre) ty ++ GetServiceFlows (with_flows ss post) ty.
Proof. unfold GetServiceFlows. simpl. apply list.filter_app. Qed.

Lemma GetServiceFlows_with_flows ss ty :
  GetServiceFlows ss ty = GetServiceFlows (with_flows ss (m_flows ss)) ty.
Proof. reflexivity. Qed.

Lemma GetServiceFlows_one ss ty sf :
  GetServiceFlows (with_flows ss [sf]) ty
  = if ServiceFlow.SchedulingType_eqb (GetSchedulingType sf) ty then [sf] else [].
Proof.
  unfold GetServiceFlows. simpl. rewrite list.filter_cons, list.filter_nil.
  destruct (ServiceFlow.SchedulingType_eqb (GetSchedulingType sf) ty); simpl.
  - now destruct (decide (true = true)).
  - now destruct (decide (false = true)).
Qed.

(** A flow whose loop condition fails is passed over: the registry without
    it gives the same selection. *)
Lemma first_flow_skip cond ss ty pre sf post otherwise :
  (ServiceFlow.SchedulingType_eqb (GetSchedulingType sf) ty = true -> cond sf = false) ->
  first_flow cond (GetServiceFlows (with_flows ss (pre ++ sf :: post)) ty) otherwise
  = first_flow cond (GetServiceFlows (with_flows ss (pre ++ post)) ty) otherwise.
Proof.
  intros H.
  rewrite !GetServiceFlows_app.
  change (sf :: post) with ([sf] ++ post).
  rewrite GetServiceFlows_app, GetServiceFlows_one, !first_flow_app.
  f_equal.
  destruct (ServiceFlow.SchedulingType_eqb (GetSchedulingType sf) ty); simpl; [|reflexivity].
  now rewrite H.
Qed.

Lemma pick_cons r ladder otherwise :
  pick (r :: ladder) otherwise = if eligible r then candidate r else pick ladder otherwise.
Proof.
  unfold pick, first_match. simpl.
  destruct (eligible r); simpl.
  - now destruct (decide (true = true)).
  - destruct (decide (false = true)); [discriminate|].
    now destruct (list_find _ ladder) as [[i r']|].
Qed.

Lemma pick_nil otherwise : pick [] otherwise = otherwise.
Proof. reflexivity. Qed.

Lemma pick_app l1 l2 otherwise : pick (l1 ++ l2) otherwise = pick l1 (pick l2 otherwise).
Proof.
  induction l1 as [|r l1 IH]; [reflexivity|].
  simpl app. rewrite !pick_cons, IH. reflexivity.
Qed.

Lemma pick_flow_rungs lvl cond flows otherwise :
  pick (flow_rungs lvl cond flows) otherwise = first_flow cond flows otherwise.
Proof.
  induction flows as [|sf flows IH]; [reflexivity|].
  unfold flow_rungs in *. simpl map. rewrite pick_cons, IH. reflexivity.
Qed.

Lemma SelectConnection_pick ss heap :
  SelectConnection ss heap = pick (priority_ladder ss heap) None.
Proof.
  unfold priority_ladder, SelectConnection.
  rewrite pick_app, !pick_cons, pick_nil. simpl.
  rewrite !pick_app, !pick_flow_rungs, pick_cons, pick_nil. simpl.
  reflexivity.
Qed.

Lemma flow_rungs_level lvl cond flows :
  Forall (fun r => level r = lvl) (flow_rungs lvl cond flows).
Proof. unfold flow_rungs. induction flows; simpl; constructor; auto. Qed.

(** Lower rungs have lower priority: the levels never go down along the
    ladder. *)
Local Ltac raise_bound H := eapply List.Forall_impl; [|exact H]; simpl; intros; lia.

Lemma levels_from n lvl cond flows rest :
  (n <= lvl)%nat ->
  Forall (fun r => (lvl <= level r)%nat) rest ->
  StronglySorted (fun r r' => (level r <= level r')%nat) rest ->
  Forall (fun r => (n <= level r)%nat) (flow_rungs lvl cond flows ++ rest)
  /\ StronglySorted (fun r r' => (level r <= level r')%nat) (flow_rungs lvl cond flows ++ rest).
Proof.
  intros Hn Hrest Hsorted. unfold flow_rungs.
  induction flows as [|sf flows [IH1 IH2]]; simpl.
  - split; [|exact Hsorted]. raise_bound Hrest.
  - split.
    + constructor; [simpl; lia|exact IH1].
    + constructor; [exact IH2|].
      apply Forall_app. split.
      * apply Forall_forall. intros r Hr.
        apply in_map_iff in Hr as [sf' [<- _]]. simpl. lia.
      * raise_bound Hrest.
Qed.

Lemma priority_ladder_sorted ss heap :
  StronglySorted (fun r r' => (level r <= level r')%nat) (priority_ladder ss heap).
Proof.
  unfold priority_ladder.
  assert (F8 : Forall (fun r => (7 <= level r)%nat)
                 [connection_rung 8 heap (GetBroadcastConnection ss)]).
  { constructor; [simpl; lia|constructor]. }
  assert (S8 : StronglySorted (fun r r' => (level r <= level r')%nat)
                 [connection_rung 8 heap (GetBroadcastConnection ss)]).
  { repeat constructor. }
  destruct (levels_from 6 7 (be_condition heap)
              (GetServiceFlows ss ServiceFlow.SF_TYPE_BE) _ ltac:(lia) F8 S8) as [F7 S7].
  destruct (levels_from 5 6 (nrtps_condition heap)
              (GetServiceFlows ss ServiceFlow.SF_TYPE_NRTPS) _ ltac:(lia) F7 S7) as [F6 S6].
  destruct (levels_from 4 5 (rtps_condition ss heap)
              (GetServiceFlows ss ServiceFlow.SF_TYPE_RTPS) _ ltac:(lia) F6 S6) as [F5 S5].
  destruct (levels_from 3 4 (ugs_condition ss heap)
              (GetServiceFlows ss ServiceFlow.SF_TYPE_UGS) _ ltac:(lia) F5 S5) as [F4 S4].
  simpl app.
  constructor; [constructor; [constructor; [exact S4|]|]|].
  - raise_bound F4.
  - constructor; [simpl; lia|]. raise_bound F4.
  - constructor; [simpl; lia|]. constructor; [simpl; lia|]. raise_bound F4.
Qed.

Lemma StronglySorted_lookup {A} (R : A -> A -> Prop) (l : list A) :
  StronglySorted R l ->
  forall i j x y, (i < j)%nat -> l !! i = Some x -> l !! j = Some y -> R x y.
Proof.
  induction 1 as [|a l Hs IH Ha]; intros i j x y Hij Hi Hj; [discriminate|].
  destruct j as [|j]; [lia|]. destruct i as [|i]; simpl in *.
  - injection Hi as <-. rewrite Forall_forall in Ha. apply Ha.
    apply list_elem_of_In. eapply list_elem_of_lookup_2; eauto.
  - eapply (IH i j); eauto. lia.
Qed.

Lemma flow_rungs_connection lvl cond flows heap :
  (forall sf, cond sf = true ->
     SF_HasPackets heap sf = true \/ SF_HasPacketsOf heap HEADER_TYPE_GENERIC sf = true) ->
  forall r, r ∈ flow_rungs lvl cond flows -> eligible r = true -> is_Some (candidate r).
Proof.
  intros Hcond r Hr He. unfold flow_rungs in Hr.
  apply list_elem_of_In, in_map_iff in Hr as [sf [<- _]]. simpl in *.
  unfold SF_HasPackets, SF_HasPacketsOf in Hcond.
  destruct (Hcond sf He) as [H|H]; destruct (GetConnection sf); eauto; discriminate.
Qed.

(** A rung that is taken names a connection: a flow without a connection
    has no packets. *)
Lemma eligible_rung_connection ss heap r :
  r ∈ priority_ladder ss heap -> eligible r = true -> is_Some (candidate r).
Proof.
  unfold priority_ladder. intros Hr He.
  repeat (apply elem_of_app in Hr as [Hr|Hr]).
  - repeat (apply elem_of_cons in Hr as [->|Hr]); simpl; eauto.
    inversion Hr.
  - eapply (flow_rungs_connection _ _ _ heap); [|exact Hr|exact He].
    unfold ugs_condition. intros sf [H _]%andb_true_iff. now left.
  - eapply (flow_rungs_connection _ _ _ heap); [|exact Hr|exact He].
    unfold rtps_condition. intros sf [H _]%andb_true_iff. now right.
  - eapply (flow_rungs_connection _ _ _ heap); [|exact Hr|exact He]. intros sf H. now right.
  - eapply (flow_rungs_connection _ _ _ heap); [|exact Hr|exact He]. intros sf H. now right.
  - apply list_elem_of_singleton in Hr as ->. simpl. eauto.
Qed.

(** C4 (amended): [SelectConnection] returns the connection of the first
    rung of the priority ladder (initial ranging, basic, primary, UGS flows
    in registry order, rtPS, nrtPS and BE flows, broadcast) whose condition
    in the code holds, the deadline tests of the UGS and rtPS rungs being
    the strict ones ([now + frame_duration > interval]).  So when some
    rung's condition holds, the rung taken stands no later on the ladder
    and has no lower priority, it names a connection, and no rung before it
    was eligible; and when no condition holds the result is none. *)
Theorem SelectConnection_first_match ss heap :
  SelectConnection ss heap
  = match first_match (priority_ladder ss heap) with
    | Some (_, r) => candidate r
    | None => None
    end
  /\ (forall k r, priority_ladder ss heap !! k = Some r -> eligible r = true ->
      exists j r',
        first_match (priority_ladder ss heap) = Some (j, r')
        /\ (j <= k)%nat /\ (level r' <= level r)%nat
        /\ SelectConnection ss heap = candidate r'
        /\ is_Some (candidate r')
        /\ forall i r'', (i < j)%nat -> priority_ladder ss heap !! i = Some r'' ->
                         eligible r'' = false)
  /\ (Forall (fun r => eligible r = false) (priority_ladder ss heap) ->
      SelectConnection ss heap = None).
Proof.
  pose proof (SelectConnection_pick ss heap) as Hpick. unfold pick in Hpick.
  split; [exact Hpick|]. split.
  - intros k r Hk He.
    destruct (first_match (priority_ladder ss heap)) as [[j r']|] eqn:Hfm.
    + unfold first_match in Hfm. apply list_find_Some in Hfm as (Hj & He' & Hbefore).
      assert (Hjk : (j <= k)%nat).
      { destruct (Nat.le_gt_cases j k) as [|Hlt]; [assumption|].
        exfalso. now apply (Hbefore k r Hk Hlt). }
      exists j, r'. repeat split; try assumption.
      * destruct (Nat.eq_dec j k) as [->|Hne].
        { rewrite Hk in Hj. injection Hj as ->. lia. }
        eapply (StronglySorted_lookup _ _ (priority_ladder_sorted ss heap) j k); eauto. lia.
      * eapply eligible_rung_connection; [|exact He'].
        eapply list_elem_of_lookup_2; eauto.
      * intros i r'' Hi Hl. specialize (Hbefore i r'' Hl Hi).
        now destruct (eligible r'').
    + unfold first_match in Hfm. apply list_find_None in Hfm.
      rewrite list.Forall_forall in Hfm. exfalso.
      apply (Hfm r); [eapply list_elem_of_lookup_2; eauto | assumption].
  - intros Hnone. rewrite Hpick.
    destruct (first_match (priority_ladder ss heap)) as [[j r']|] eqn:Hfm; [|reflexivity].
    unfold first_match in Hfm. apply list_find_Some in Hfm as (Hj & He' & _).
    rewrite list.Forall_forall in Hnone.
    rewrite (Hnone r') in He'; [discriminate|].
    eapply list_elem_of_lookup_2; eauto.
Qed.

(** C3 (amended): the deadline comparison is strict.  The condition of the
    UGS loop holds for a flow iff its connection has packets and
    [now + frame_duration > unsolicited_grant_interval], that of the rtPS
    loop iff the connection has GENERIC packets and
    [now + frame_duration > unsolicited_polling_interval].  With no packets
    on the three management connections, the first UGS flow that meets the
    condition is selected; with no such UGS flow, the first rtPS flow that
    meets its condition; and a UGS or rtPS flow that does not meet it is
    passed over: the selection is what it would be without that flow. *)
Theorem SelectConnection_deadline_strict ss heap :
  (forall sf, ugs_condition ss heap sf = true <->
     SF_HasPackets heap sf = true
     /\ Now ss + GetFrameDuration > MilliSeconds (GetUnsolicitedGrantInterval sf))
  /\ (forall sf, rtps_condition ss heap sf = true <->
     SF_HasPacketsOf heap HEADER_TYPE_GENERIC sf = true
     /\ Now ss + GetFrameDuration > MilliSeconds (GetUnsolicitedPollingInterval sf))
  /\ (HasPackets (heap (GetInitialRangingConnection ss)) = false ->
      HasPackets (heap (GetBasicConnection ss)) = false ->
      HasPackets (heap (GetPrimaryConnection ss)) = false ->
      (forall pre sf post,
         GetServiceFlows ss ServiceFlow.SF_TYPE_UGS = pre ++ sf :: post ->
         Forall (fun sf' => ugs_condition ss heap sf' = false) pre ->
         ugs_condition ss heap sf = true ->
         SelectConnection ss heap = GetConnection sf)
      /\ (forall pre sf post,
         Forall (fun sf' => ugs_condition ss heap sf' = false)
           (GetServiceFlows ss ServiceFlow.SF_TYPE_UGS) ->
         GetServiceFlows ss ServiceFlow.SF_TYPE_RTPS = pre ++ sf :: post ->
         Forall (fun sf' => rtps_condition ss heap sf' = false) pre ->
         rtps_condition ss heap sf = true ->
         SelectConnection ss heap = GetConnection sf))
  /\ (forall pre sf post,
        m_flows ss = pre ++ sf :: post ->
        (GetSchedulingType sf = ServiceFlow.SF_TYPE_UGS /\ ugs_condition ss heap sf = false)
        \/ (GetSchedulingType sf = ServiceFlow.SF_TYPE_RTPS /\ rtps_condition ss heap sf = false) ->
        SelectConnection ss heap = SelectConnection (with_flows ss (pre ++ post)) heap).
Proof.
  split; [|split; [|split]].
  - intros sf. unfold ugs_condition. rewrite andb_true_iff, Z.gtb_gt. reflexivity.
  - intros sf. unfold rtps_condition. rewrite andb_true_iff, Z.gtb_gt. reflexivity.
  - intros H1 H2 H3. unfold SelectConnection. rewrite H1, H2, H3. split.
    + intros pre sf post -> Hpre Hsf. now apply first_flow_first.
    + intros pre sf post Hugs -> Hpre Hsf.
      rewrite (first_flow_none _ _ _ Hugs). now apply first_flow_first.
  - intros pre sf post Hflows Hsf.
    unfold SelectConnection. simpl.
    rewrite !(GetServiceFlows_with_flows ss), Hflows.
    change (ugs_condition (with_flows ss (pre ++ post)) heap) with (ugs_condition ss heap).
    change (rtps_condition (with_flows ss (pre ++ post)) heap) with (rtps_condition ss heap).
    rewrite (first_flow_skip (ugs_condition ss heap) ss ServiceFlow.SF_TYPE_UGS).
    2:{ destruct Hsf as [[_ H]|[-> _]]; [intros _; exact H | discriminate]. }
    rewrite (first_flow_skip (rtps_condition ss heap) ss ServiceFlow.SF_TYPE_RTPS).
    2:{ destruct Hsf as [[-> _]|[_ H]]; [discriminate | intros _; exact H]. }
    rewrite (first_flow_skip (nrtps_condition heap) ss ServiceFlow.SF_TYPE_NRTPS).
    2:{ destruct Hsf as [[-> _]|[-> _]]; discriminate. }
    rewrite (first_flow_skip (be_condition heap) ss ServiceFlow.SF_TYPE_BE).
    2:{ destruct Hsf as [[-> _]|[-> _]]; discriminate. }
    reflexivity.
Qed.

(** ** Whole runs of the loop *)

Lemma HasPacketsOf_IsEmptyOf t conn :
  HasPacketsOf t conn = true -> IsEmptyOf t (GetQueue conn) = false.
Proof. unfold HasPacketsOf. now destruct (IsEmptyOf t (GetQueue conn)). Qed.

(** What a pass that appended a packet did. *)
Lemma Schedule_iteration_inv a m t conn packet a' q' :
  Schedule_iteration a m t conn = Appended packet a' q' ->
  (availableByte a m >= requiredByte t (GetQueue conn)
   /\ Dequeue t (GetQueue conn) = (packet, q'))
  \/ (GetType conn = Cid.TRANSPORT
      /\ headerSize t (GetQueue conn) < availableByte a m < requiredByte t (GetQueue conn)
      /\ DequeueFragment t (availableByte a m) (GetQueue conn) = (packet, q')).
Proof.
  unfold Schedule_iteration. intros H.
  destruct (Z.geb_spec (availableByte a m) (requiredByte t (GetQueue conn))).
  - left. split; [lia|]. destruct (Dequeue t (GetQueue conn)). now injection H as <- _ <-.
  - right. destruct (GetType conn); try discriminate. simpl in H.
    destruct (Z.gtb_spec (availableByte a m) (headerSize t (GetQueue conn))); [|discriminate].
    split; [reflexivity|]. split; [lia|].
    destruct (DequeueFragment t (availableByte a m) (GetQueue conn)).
    now injection H as <- _ <-.
Qed.

Lemma total_bytes_snoc burst packet :
  total_bytes (burst ++ [packet]) = total_bytes burst + u32 (GetSize packet).
Proof.
  unfold total_bytes. induction burst as [|p burst IH]; simpl; [lia|].
  rewrite IH. lia.
Qed.

Lemma total_bytes_nonneg burst : 0 <= total_bytes burst.
Proof.
  unfold total_bytes. induction burst as [|p burst IH]; simpl; [lia|].
  pose proof (u32_range (GetSize p)). lia.
Qed.

Section QueueLaws.
Variables (ok : Queue -> Prop) (weight : Queue -> nat).
Hypothesis laws : WimaxMacQueueLaws mq ok weight.

(** A pass on a law-abiding queue leaves a law-abiding, lighter queue and
    a packet within the byte budget. *)
Lemma Schedule_iteration_laws a m t conn packet a' q' :
  ok (GetQueue conn) -> HasPacketsOf t conn = true ->
  Schedule_iteration a m t conn = Appended packet a' q' ->
  ok q' /\ (weight q' < weight (GetQueue conn))%nat
  /\ u32 (GetSize packet) <= availableByte a m.
Proof.
  intros Hok Hp%HasPacketsOf_IsEmptyOf H.
  apply Schedule_iteration_inv in H as [[Hge Hd]|(Ht & Hrange & Hd)].
  - pose proof (Dequeue_ok _ _ _ laws t _ Hok Hp) as H1.
    pose proof (Dequeue_weight _ _ _ laws t _ Hok Hp) as H2.
    pose proof (Dequeue_size _ _ _ laws t _ Hok Hp) as H3.
    rewrite Hd in H1, H2, H3. simpl in *. repeat split; try assumption. lia.
  - pose proof (DequeueFragment_ok _ _ _ laws t _ _ Hok Hp Hrange) as H1.
    pose proof (DequeueFragment_weight _ _ _ laws t _ _ Hok Hp Hrange) as H2.
    pose proof (DequeueFragment_size _ _ _ laws t _ _ Hok Hp Hrange) as H3.
    rewrite Hd in H1, H2, H3. simpl in *. repeat split; assumption.
Qed.

(** The loop ends: every pass that does not break takes weight off the
    queue. *)
Lemma Schedule_loop_terminates m t c fuel : forall a heap burst,
  ok (GetQueue (heap c)) ->
  (weight (GetQueue (heap c)) < fuel)%nat ->
  exists r, Schedule_loop fuel a m t (Some c) heap burst = Some r.
Proof.
  induction fuel as [|fuel IH]; intros a heap burst Hok Hw; [lia|].
  destruct (HasPacketsOf t (heap c)) eqn:Hp.
  - destruct (Schedule_iteration a m t (heap c)) as [packet a' q'|] eqn:Hi.
    + rewrite (Schedule_loop_appended fuel a m t c heap burst _ _ _ Hp Hi).
      destruct (Schedule_iteration_laws _ _ _ _ _ _ _ Hok Hp Hi) as (Hok' & Hw' & _).
      apply IH; rewrite heap_lookup_insert; simpl; [assumption|lia].
    + rewrite (Schedule_loop_break fuel a m t c heap burst Hi). eauto.
  - rewrite (Schedule_loop_done (S fuel) a m t c heap burst Hp). eauto.
Qed.

(** With an exact PHY the counter pays for every byte of the burst: what
    the burst needs is never more than what was spent. *)
Lemma Schedule_loop_fits `{!WimaxPhyLaws phy} a0 m t c fuel :
  forall a heap burst burst' a' heap',
  0 <= a <= a0 -> a0 < 65536 ->
  ok (GetQueue (heap c)) ->
  GetNrSymbols (total_bytes burst) m <= a0 - a ->
  Schedule_loop fuel a m t (Some c) heap burst = Some (burst', a', heap') ->
  GetNrSymbols (total_bytes burst') m <= a0 - a' /\ 0 <= a' <= a0.
Proof.
  induction fuel as [|fuel IH]; intros a heap burst burst' a' heap' Ha Ha0 Hok Hfit H.
  - simpl in H. destruct (HasPacketsOf t (heap c)); [discriminate|].
    injection H as <- <- _. split; [assumption|lia].
  - destruct (HasPacketsOf t (heap c)) eqn:Hp.
    + destruct (Schedule_iteration a m t (heap c)) as [packet a1 q1|] eqn:Hi.
      * rewrite (Schedule_loop_appended fuel a m t c heap burst _ _ _ Hp Hi) in H.
        destruct (Schedule_iteration_laws _ _ _ _ _ _ _ Hok Hp Hi) as (Hok' & _ & Hsize).
        apply Schedule_iteration_cost in Hi.
        pose proof (u32_range (GetSize packet)) as Hs.
        assert (HA : availableByte a m <= GetNrBytes a m).
        { unfold availableByte. apply u32_le. apply GetNrBytes_nonneg. lia. }
        assert (Hcost : 0 <= GetNrSymbols (u32 (GetSize packet)) m <= a).
        { split; [apply GetNrSymbols_nonneg; lia|].
          apply GetNrSymbols_least; lia. }
        assert (Ha1 : a1 = a - GetNrSymbols (u32 (GetSize packet)) m).
        { subst a1. unfold subtract_symbols, nrSymbolsRequired.
          rewrite (u16_small (GetNrSymbols _ m)) by lia. apply u16_small. lia. }
        eapply IH in H; try eassumption.
        -- lia.
        -- now rewrite heap_lookup_insert.
        -- rewrite total_bytes_snoc.
           pose proof (GetNrSymbols_subadditive (total_bytes burst) (u32 (GetSize packet)) m
                         (total_bytes_nonneg burst) ltac:(lia)).
           lia.
      * rewrite (Schedule_loop_break fuel a m t c heap burst Hi) in H.
        injection H as <- <- _. split; [assumption|lia].
    + rewrite (Schedule_loop_done (S fuel) a m t c heap burst Hp) in H.
      injection H as <- <- _. split; [assumption|lia].
Qed.

End QueueLaws.

(** On a connection that is not a TRANSPORT connection every packet of
    the burst comes from the plain [Dequeue], and only the queue of that
    connection changes. *)
Lemma Schedule_loop_management m t c fuel : forall a heap burst burst' a' heap',
  GetType (heap c) <> Cid.TRANSPORT ->
  Schedule_loop fuel a m t (Some c) heap burst = Some (burst', a', heap') ->
  exists packets,
    burst' = burst ++ packets
    /\ Dequeue_whole t (length packets) (GetQueue (heap c)) = (packets, GetQueue (heap' c))
    /\ GetType (heap' c) = GetType (heap c)
    /\ (forall c', c' <> c -> heap' c' = heap c')
    /\ (HasPacketsOf t (heap' c) = true ->
        availableByte a' m < requiredByte t (GetQueue (heap' c))).
Proof.
  induction fuel as [|fuel IH]; intros a heap burst burst' a' heap' Ht H.
  - simpl in H. destruct (HasPacketsOf t (heap c)) eqn:Hp; [discriminate|].
    injection H as <- <- <-. exists []. rewrite app_nil_r, Hp. repeat split; auto. discriminate.
  - destruct (HasPacketsOf t (heap c)) eqn:Hp.
    + destruct (Schedule_iteration a m t (heap c)) as [packet a1 q1|] eqn:Hi.
      * rewrite (Schedule_loop_appended fuel a m t c heap burst _ _ _ Hp Hi) in H.
        apply Schedule_iteration_inv in Hi as [[_ Hd]|(Htr & _)]; [|contradiction].
        apply IH in H; [|now rewrite heap_lookup_insert].
        destruct H as (packets & -> & Hw & Hty & Hother & Hleft).
        rewrite heap_lookup_insert in Hw, Hty. simpl in Hw, Hty.
        exists (packet :: packets). rewrite <- app_assoc. simpl.
        rewrite Hd, Hw. repeat split; auto.
        intros c' Hc'. rewrite (Hother c' Hc'). apply heap_lookup_insert_ne. congruence.
      * rewrite (Schedule_loop_break fuel a m t c heap burst Hi) in H.
        injection H as <- <- <-. exists []. rewrite app_nil_r. repeat split; auto.
        intros _. unfold Schedule_iteration in Hi.
        destruct (Z.geb_spec (availableByte a m) (requiredByte t (GetQueue (heap c)))); [|lia].
        destruct (Dequeue t (GetQueue (heap c))). discriminate.
    + rewrite (Schedule_loop_done (S fuel) a m t c heap burst Hp) in H.
      injection H as <- <- <-. exists []. rewrite app_nil_r, Hp. repeat split; auto. discriminate.
Qed.

(** [Schedule] is its loop on the scheduled connection, once the assertion
    has passed. *)
Lemma Schedule_inv fuel ss a m t connection heap burst connection' heap' :
  Schedule fuel ss a m t connection heap = Some (Returned burst connection' heap') ->
  connection' = scheduled ss connection heap
  /\ exists a', Schedule_loop fuel a m t connection' heap [] = Some (burst, a', heap').
Proof.
  unfold Schedule, scheduled. intros H. destruct connection as [c|].
  - destruct (HasPackets (heap c)); [|discriminate].
    destruct (Schedule_loop fuel a m t (Some c) heap []) as [[[b a'] h]|] eqn:Hl;
      [|discriminate].
    injection H as <- <- <-. split; [reflexivity | eexists; exact Hl].
  - destruct (Schedule_loop fuel a m t (SelectConnection ss heap) heap [])
      as [[[b a'] h]|] eqn:Hl; [|discriminate].
    injection H as <- <- <-. split; [reflexivity | eexists; exact Hl].
Qed.

Lemma Schedule_returns fuel ss a m t connection heap :
  (exists r, Schedule_loop fuel a m t (scheduled ss connection heap) heap [] = Some r) ->
  exists r, Schedule fuel ss a m t connection heap = Some r.
Proof.
  unfold Schedule, scheduled. intros [[[b a'] h] H]. destruct connection as [c|].
  - destruct (HasPackets (heap c)); [|eauto]. rewrite H. eauto.
  - rewrite H. eauto.
Qed.

(** C6: a grant on a connection that is not a TRANSPORT connection never
    dequeues a fragment.  A pass whose byte budget does not cover the head
    packet breaks at once; the burst a call returns is made of whole
    packets, taken with the plain [Dequeue] one after the other; no other
    queue changes; and if packets are left, the budget left did not cover
    the head packet, which stays queued.  On a queue that gives up a packet
    at every dequeue the call does return. *)
Theorem Schedule_management_never_fragments ss a m t connection heap c :
  scheduled ss connection heap = Some c ->
  GetType (heap c) <> Cid.TRANSPORT ->
  (forall a' conn, GetType conn <> Cid.TRANSPORT ->
     availableByte a' m < requiredByte t (GetQueue conn) ->
     Schedule_iteration a' m t conn = Break)
  /\ (forall fuel burst connection' heap',
        Schedule fuel ss a m t connection heap = Some (Returned burst connection' heap') ->
        connection' = Some c
        /\ Dequeue_whole t (length burst) (GetQueue (heap c)) = (burst, GetQueue (heap' c))
        /\ GetType (heap' c) = GetType (heap c)
        /\ (forall c', c' <> c -> heap' c' = heap c')
        /\ exists a', HasPacketsOf t (heap' c) = true ->
                      availableByte a' m < requiredByte t (GetQueue (heap' c)))
  /\ (forall ok weight, WimaxMacQueueLaws mq ok weight -> ok (GetQueue (heap c)) ->
        exists r, Schedule (S (weight (GetQueue (heap c)))) ss a m t connection heap = Some r).
Proof.
  intros Hc Ht. split; [|split].
  - intros a' conn Hconn Hlt. now apply Schedule_iteration_management.
  - intros fuel burst connection' heap' H.
    apply Schedule_inv in H as [-> [a' H]]. rewrite Hc in *.
    apply Schedule_loop_management in H; [|assumption].
    destruct H as (packets & -> & Hw & Hty & Hother & Hleft). simpl.
    repeat split; auto. now exists a'.
  - intros ok weight laws Hok. apply Schedule_returns. rewrite Hc.
    eapply Schedule_loop_terminates; eauto.
Qed.

(** A call that keeps the caller's contract ends in a burst whenever its
    loop ends. *)
Lemma Schedule_returns_burst fuel ss a m t connection heap burst a' heap' :
  (forall c, connection = Some c -> HasPackets (heap c) = true) ->
  Schedule_loop fuel a m t (scheduled ss connection heap) heap [] = Some (burst, a', heap') ->
  Schedule fuel ss a m t connection heap
  = Some (Returned burst (scheduled ss connection heap) heap').
Proof.
  unfold Schedule, scheduled. intros Hcontract H. destruct connection as [c|].
  - rewrite (Hcontract c eq_refl). now rewrite H.
  - now rewrite H.
Qed.

(** C1 (amended): take a call that keeps the caller's contract (the
    connection passed in, if any, has packets), a PHY whose conversions
    are not negative and whose [GetNrSymbols] is the least number of
    symbols that carries the bytes and needs no more symbols for two
    packets together than apart, and a scheduled connection whose queue is
    of a kind that the dequeues of the scheduler keep, on which a whole
    packet is no longer than the required bytes reported, a fragment no
    longer than the cap, and every such dequeue takes weight off the
    queue.  Then the call returns a burst (within as many passes as the
    queue weighs, and one), and every burst it returns fits the grant:
    [GetNrSymbols (total_bytes burst) <= availableSymbols]. *)
Theorem Schedule_burst_fits_grant `{!WimaxPhyLaws phy} ok weight ss a m t connection heap :
  WimaxMacQueueLaws mq ok weight ->
  0 <= a < 65536 ->
  (forall c, connection = Some c -> HasPackets (heap c) = true) ->
  (forall c, scheduled ss connection heap = Some c -> ok (GetQueue (heap c))) ->
  (exists fuel burst heap',
     Schedule fuel ss a m t connection heap
     = Some (Returned burst (scheduled ss connection heap) heap'))
  /\ forall fuel burst connection' heap',
       Schedule fuel ss a m t connection heap = Some (Returned burst connection' heap') ->
       GetNrSymbols (total_bytes burst) m <= a.
Proof.
  intros laws Ha Hcontract Hok.
  assert (H0 : GetNrSymbols 0 m <= 0).
  { apply GetNrSymbols_least; try lia. apply GetNrBytes_nonneg. lia. }
  split.
  - destruct (scheduled ss connection heap) as [c|] eqn:Hc.
    + destruct (Schedule_loop_terminates ok weight laws m t c
                  (S (weight (GetQueue (heap c)))) a heap [] (Hok c eq_refl) ltac:(lia))
        as [[[burst a'] heap'] Hloop].
      exists (S (weight (GetQueue (heap c)))), burst, heap'.
      rewrite <- Hc in Hloop |- *. now apply (Schedule_returns_burst _ _ _ _ _ _ _ _ a').
    + exists O, [], heap. rewrite <- Hc.
      apply (Schedule_returns_burst _ _ _ _ _ _ _ _ a); [assumption|].
      rewrite Hc. reflexivity.
  - intros fuel burst connection' heap' H.
    apply Schedule_inv in H as [-> [a' H]].
    destruct (scheduled ss connection heap) as [c|] eqn:Hc.
    + eapply (Schedule_loop_fits ok weight laws a) in H; eauto; try lia.
      simpl. lia.
    + rewrite Schedule_loop_null in H. injection H as <- _ _. simpl. lia.
Qed.

End SchedulerProperties.

(** * The PHY and the queue of the examples keep the contracts *)

Lemma ceil_div_bounds b k :
  0 < k -> k * ((b + k - 1) / k) - k < b <= k * ((b + k - 1) / k).
Proof.
  intros Hk.
  pose proof (Z.mul_div_le (b + k - 1) k Hk).
  pose proof (Z.mul_succ_div_gt (b + k - 1) k Hk).
  lia.
Qed.

(** Blocks of any size meet the contract of section 6. *)
Lemma BlockPhy_contract k n fd : 0 < k -> 0 < n -> PhyInterfaceContract (BlockPhy k n fd).
Proof.
  intros Hk Hn. split; simpl.
  - intros s s' _ Hs. nia.
  - intros b _ Hb.
    pose proof (ceil_div_bounds b (k * n) ltac:(nia)). nia.
Qed.

(** Blocks of one symbol make the PHY exact. *)
Lemma BlockPhy_exact k fd : 0 < k -> WimaxPhyLaws (BlockPhy k 1 fd).
Proof.
  intros Hk. split; simpl; intros.
  - nia.
  - rewrite Z.mul_1_l, Z.mul_1_r. apply Z.div_pos; lia.
  - rewrite Z.mul_1_l, Z.mul_1_r.
    apply Z.lt_succ_r, Z.div_lt_upper_bound; lia.
  - rewrite !Z.mul_1_l, !Z.mul_1_r.
    pose proof (ceil_div_bounds a k Hk). pose proof (ceil_div_bounds b k Hk).
    apply Z.lt_succ_r, Z.div_lt_upper_bound; lia.
Qed.

Module ListQueueFacts.
Import ListQueue.

Lemma Front_ok t q e : well_formed q -> Front t q = Some e -> element_ok e.
Proof.
  unfold well_formed. induction 1 as [|e' q He' _ IH]; simpl; [discriminate|].
  destruct (MacHeaderType.HeaderType_eqb (m_hdrType e') t); [|exact IH].
  now intros [= <-].
Qed.

Lemma Pop_ok t q : well_formed q -> well_formed (Pop t q).
Proof.
  unfold well_formed. induction 1 as [|e q He Hq IH]; simpl; [constructor|].
  destruct (MacHeaderType.HeaderType_eqb (m_hdrType e) t); [assumption|now constructor].
Qed.

Lemma weight_cons e q : backlog (e :: q) = (S (Z.to_nat (m_payload e)) + backlog q)%nat.
Proof. reflexivity. Qed.

Lemma Pop_weight t q e : Front t q = Some e -> (backlog (Pop t q) < backlog q)%nat.
Proof.
  induction q as [|e' q IH]; cbn [Pop Front]; [discriminate|].
  destruct (MacHeaderType.HeaderType_eqb (m_hdrType e') t).
  - intros _. rewrite weight_cons. lia.
  - intros H. specialize (IH H). rewrite !weight_cons. lia.
Qed.

Lemma SetFront_ok t e' q : well_formed q -> element_ok e' -> well_formed (SetFront t e' q).
Proof.
  unfold well_formed. intros Hq He'. induction Hq as [|e q He Hq IH]; simpl; [constructor|].
  destruct (MacHeaderType.HeaderType_eqb (m_hdrType e) t); now constructor.
Qed.

Lemma SetFront_weight t e e' q :
  Front t q = Some e -> 0 <= m_payload e' < m_payload e ->
  (backlog (SetFront t e' q) < backlog q)%nat.
Proof.
  intros H Hp. induction q as [|e0 q IH]; cbn [SetFront Front] in *; [discriminate|].
  destruct (MacHeaderType.HeaderType_eqb (m_hdrType e0) t).
  - injection H as ->. rewrite !weight_cons. lia.
  - specialize (IH H). rewrite !weight_cons. lia.
Qed.

Lemma requiredByte_Front t (q : list QueueElement) e :
  well_formed q -> Front t q = Some e ->
  requiredByte t q = RequiredByte e /\ headerSize t q = m_hdrSize e + 2.
Proof.
  intros Hok H. destruct (Front_ok t q e Hok H) as (H1 & H2 & H3).
  unfold requiredByte, headerSize. simpl. rewrite H. simpl.
  unfold RequiredByte, HdrSize in *.
  destruct (m_fragmentation e); simpl.
  - rewrite !u32_small by lia. lia.
  - rewrite Z.add_0_r, (u32_small (m_hdrSize e)) by lia.
    rewrite !u32_small by lia. lia.
Qed.

Lemma IsEmptyOf_Front t (q : list QueueElement) :
  IsEmptyOf t q = false -> exists e, Front t q = Some e.
Proof. simpl. destruct (Front t q); [eauto|discriminate]. Qed.

(** The list queue keeps the promises of a queue. *)
Lemma ListQueue_laws : WimaxMacQueueLaws queue well_formed backlog.
Proof.
  split.
  - intros t q Hok [e He]%IsEmptyOf_Front.
    simpl. unfold list_Dequeue. rewrite He. simpl. now apply Pop_ok.
  - intros t q Hok [e He]%IsEmptyOf_Front.
    unfold requiredByte. simpl. unfold list_Dequeue. rewrite He. simpl. lia.
  - intros t q Hok [e He]%IsEmptyOf_Front.
    simpl. unfold list_Dequeue. rewrite He. simpl. eapply Pop_weight; eauto.
  - intros t cap q Hok [e He]%IsEmptyOf_Front Hcap.
    destruct (requiredByte_Front t q e Hok He) as [HR HH]. rewrite HR, HH in Hcap.
    destruct (Front_ok t q e Hok He) as (H1 & H2 & H3).
    simpl. unfold list_DequeueFragment. rewrite He. simpl.
    apply SetFront_ok; [assumption|].
    unfold element_ok, RequiredByte, HdrSize in *. simpl.
    destruct (m_fragmentation e); lia.
  - intros t cap q Hok [e He]%IsEmptyOf_Front Hcap.
    destruct (requiredByte_Front t q e Hok He) as [HR HH]. rewrite HR, HH in Hcap.
    destruct (Front_ok t q e Hok He) as (H1 & H2 & H3).
    simpl. unfold list_DequeueFragment. rewrite He. simpl.
    apply u32_le. lia.
  - intros t cap q Hok [e He]%IsEmptyOf_Front Hcap.
    destruct (requiredByte_Front t q e Hok He) as [HR HH]. rewrite HR, HH in Hcap.
    destruct (Front_ok t q e Hok He) as (H1 & H2 & H3).
    simpl. unfold list_DequeueFragment. rewrite He. simpl.
    eapply SetFront_weight; [exact He|]. simpl.
    unfold RequiredByte, HdrSize in *.
    destruct (m_fragmentation e); lia.
Qed.

End ListQueueFacts.

(** * The theorems at work *)

Module Examples.
Import ListQueue Scenarios.

Lemma be_heap_ok c :
  scheduled (phy := phy_exact) be_station None be_heap = Some c -> well_formed (GetQueue (be_heap c)).
Proof.
  intros [= <-]. repeat constructor; simpl; lia.
Defined.

(** The 1500-byte packet of the best-effort flow under a grant of 25
    symbols (300 bytes): the call returns a burst, and the burst fits the
    grant. *)
Lemma Schedule_burst_fits_grant_witness :
  0 <= 25 < 65536
  /\ (exists fuel burst heap',
        Schedule (phy := phy_exact) fuel be_station 25 tt HEADER_TYPE_GENERIC None be_heap
        = Some (Returned burst
                  (scheduled (phy := phy_exact) be_station None be_heap) heap'))
  /\ forall fuel burst connection' heap',
       Schedule (phy := phy_exact) fuel be_station 25 tt HEADER_TYPE_GENERIC None be_heap
       = Some (Returned burst connection' heap') ->
       GetNrSymbols (WimaxPhy := phy_exact) (total_bytes burst) tt <= 25.
Proof.
  split; [lia|].
  apply (@Schedule_burst_fits_grant phy_exact queue (BlockPhy_exact 12 5000000 eq_refl)
           well_formed backlog be_station 25 tt HEADER_TYPE_GENERIC None be_heap
           ListQueueFacts.ListQueue_laws).
  - lia.
  - intros c H. discriminate H.
  - exact be_heap_ok.
Defined.

(** C1, as stated, fails: [phy_blocks] meets the contract asked of a PHY
    and the queue keeps its promises, and under a grant of one symbol
    (12 bytes) the 12-byte packet is charged two symbols, the counter wraps
    to 65535, the second packet follows, and the burst of 118 bytes needs
    10 symbols. *)
Lemma Schedule_burst_exceeds_grant :
  PhyInterfaceContract phy_blocks
  /\ WimaxMacQueueLaws queue well_formed backlog
  /\ well_formed (GetQueue (small_heap 4%nat))
  /\ exists burst connection' heap',
       Schedule (phy := phy_blocks) 2 be_station 1 tt HEADER_TYPE_GENERIC None small_heap
       = Some (Returned burst connection' heap')
       /\ total_bytes burst = 118
       /\ GetNrSymbols (WimaxPhy := phy_blocks) (total_bytes burst) tt = 10
       /\ ~ GetNrSymbols (WimaxPhy := phy_blocks) (total_bytes burst) tt <= 1.
Proof.
  split; [apply BlockPhy_contract; lia|].
  split; [exact ListQueueFacts.ListQueue_laws|].
  split; [repeat constructor; simpl; lia|].
  do 3 eexists. split; [vm_compute; reflexivity|].
  split; [reflexivity|]. split; [reflexivity|]. vm_compute. intros H. now apply H.
Qed.

(** A 24-byte packet under 10 symbols costs 2 symbols and leaves 8. *)
Lemma Schedule_subtraction_wraps_witness :
  Schedule_iteration (phy := phy_exact) 10 tt HEADER_TYPE_GENERIC (basic_heap 1%nat)
  = Appended {| pkt_hdrType := HEADER_TYPE_GENERIC; pkt_size := 24; pkt_fragment := false |}
      8 [sdu HEADER_TYPE_GENERIC 44]
  /\ 8 = (10 - 2) mod 65536.
Proof.
  split; [reflexivity|].
  exact (proj1 (proj2 (Schedule_subtraction_wraps (phy := phy_exact) 10 tt HEADER_TYPE_GENERIC
                         (basic_heap 1%nat) _ 8 _ ltac:(lia) eq_refl))).
Defined.

(** C2, as stated, fails: one symbol is left, the packet costs two, and
    the counter becomes 65535 where a subtraction held at zero gives 0. *)
Lemma Schedule_subtraction_does_not_saturate :
  exists packet q',
    Schedule_iteration (phy := phy_blocks) 1 tt HEADER_TYPE_GENERIC (small_heap 4%nat)
    = Appended packet 65535 q'
    /\ nrSymbolsRequired (phy := phy_blocks) packet tt = 2
    /\ subtract_symbols_saturating (phy := phy_blocks) 1 packet tt = 0
    /\ 65535 <> subtract_symbols_saturating (phy := phy_blocks) 1 packet tt.
Proof.
  do 2 eexists. split; [vm_compute; reflexivity|].
  split; [reflexivity|]. split; [reflexivity|]. vm_compute. discriminate.
Qed.

(** C3, as stated, fails: the UGS flow has packets and
    [now + frame_duration] equals its grant interval, so it is eligible
    with [>=]; it is the only candidate, and it is not selected. *)
Lemma SelectConnection_skips_flow_at_deadline :
  ugs_eligible_spec (phy := phy_exact) ugs_station ugs_heap ugs_flow
  /\ Now ugs_station + GetFrameDuration (WimaxPhy := phy_exact)
     = MilliSeconds (GetUnsolicitedGrantInterval ugs_flow)
  /\ GetServiceFlows ugs_station ServiceFlow.SF_TYPE_UGS = [ugs_flow]
  /\ SelectConnection (phy := phy_exact) ugs_station ugs_heap = None
  /\ SelectConnection (phy := phy_exact) ugs_station ugs_heap <> GetConnection ugs_flow.
Proof.
  split; [split; [reflexivity | vm_compute; discriminate]|].
  split; [reflexivity|]. split; [reflexivity|]. split; [reflexivity|].
  vm_compute. discriminate.
Qed.

(** The 1500-byte packet under 300 bytes: [H] is 6 + 2 and a fragment of
    300 bytes is dequeued, the rest waits with its fragmentation in
    progress. *)
Lemma Schedule_fragmentation_branch_witness :
  availableByte (phy := phy_exact) 25 tt < requiredByte HEADER_TYPE_GENERIC (GetQueue (be_heap 4%nat))
  /\ headerSize HEADER_TYPE_GENERIC (GetQueue (be_heap 4%nat)) = 6 + 2
  /\ Schedule_iteration (phy := phy_exact) 25 tt HEADER_TYPE_GENERIC (be_heap 4%nat)
     = Appended {| pkt_hdrType := HEADER_TYPE_GENERIC; pkt_size := 300; pkt_fragment := true |}
         0 [{| m_hdrType := HEADER_TYPE_GENERIC; m_hdrSize := 6; m_payload := 1202;
               m_fragmentation := true |}].
Proof.
  destruct (Schedule_fragmentation_branch (phy := phy_exact) 0 25 tt HEADER_TYPE_GENERIC 4%nat
              be_heap [] eq_refl eq_refl eq_refl eq_refl) as (H1 & H2 & _).
  split; [reflexivity|]. split; [exact H1|].
  exact (proj1 (H2 eq_refl)).
Defined.

(** The basic connection under 4 symbols (48 bytes): the 24-byte packet
    goes out whole, the 50-byte packet stays. *)
Lemma Schedule_management_never_fragments_witness :
  scheduled (phy := phy_exact) idle_station None basic_heap = Some 1%nat
  /\ GetType (basic_heap 1%nat) <> Cid.TRANSPORT
  /\ (exists r, Schedule (phy := phy_exact) (S (backlog (GetQueue (basic_heap 1%nat))))
                  idle_station 4 tt HEADER_TYPE_GENERIC None basic_heap = Some r)
  /\ forall fuel burst connection' heap',
       Schedule (phy := phy_exact) fuel idle_station 4 tt HEADER_TYPE_GENERIC None basic_heap
       = Some (Returned burst connection' heap') ->
       Dequeue_whole HEADER_TYPE_GENERIC (length burst) (GetQueue (basic_heap 1%nat))
       = (burst, GetQueue (heap' 1%nat)).
Proof.
  assert (Ht : GetType (basic_heap 1%nat) <> Cid.TRANSPORT) by discriminate.
  destruct (Schedule_management_never_fragments (phy := phy_exact) idle_station 4 tt
              HEADER_TYPE_GENERIC None basic_heap 1%nat eq_refl Ht) as (_ & H2 & H3).
  split; [reflexivity|]. split; [exact Ht|]. split.
  - apply (H3 well_formed backlog ListQueueFacts.ListQueue_laws). repeat constructor; simpl; lia.
  - intros fuel burst connection' heap' H. exact (proj1 (proj2 (H2 _ _ _ _ H))).
Defined.

(** The 24-byte packet of the basic connection under no symbols. *)
Lemma Schedule_zero_symbols_witness :
  GetNrBytes (WimaxPhy := phy_exact) 0 tt = 0
  /\ 0 < requiredByte HEADER_TYPE_GENERIC (GetQueue (basic_heap 1%nat))
  /\ Schedule (phy := phy_exact) 1 idle_station 0 tt HEADER_TYPE_GENERIC None basic_heap
     = Some (Returned [] (Some 1%nat) basic_heap).
Proof.
  split; [reflexivity|]. split; [reflexivity|].
  apply (Schedule_zero_symbols (phy := phy_exact) 0 idle_station tt HEADER_TYPE_GENERIC
           None basic_heap eq_refl).
  - intros c H. discriminate H.
  - intros c H _. injection H as <-. reflexivity.
Defined.

(** C7, as stated, fails: with no symbols at all, the packet of no bytes
    at the head of the basic connection passes [A >= R] and is dequeued;
    the burst is not empty and the queue has changed. *)
Lemma Schedule_zero_symbols_dequeues_empty_packet :
  exists packet heap',
    Schedule (phy := phy_exact) 2 idle_station 0 tt HEADER_TYPE_GENERIC None degenerate_heap
    = Some (Returned [packet] (Some 1%nat) heap')
    /\ availableByte (phy := phy_exact) 0 tt = 0
    /\ GetQueue (degenerate_heap 1%nat)
       = [empty_sdu HEADER_TYPE_GENERIC; sdu HEADER_TYPE_GENERIC 44]
    /\ GetQueue (heap' 1%nat) = [sdu HEADER_TYPE_GENERIC 44].
Proof.
  do 2 eexists. split; [vm_compute; reflexivity|].
  split; [reflexivity|]. split; reflexivity.
Qed.


(** A station with nothing to send, called three times. *)
Lemma Schedule_no_connection_witness :
  SelectConnection (phy := phy_exact) idle_station idle_heap = None
  /\ Schedule (phy := phy_exact) 0 idle_station 100 tt HEADER_TYPE_GENERIC None idle_heap
     = Some (Returned [] None idle_heap)
  /\ Schedule_calls (phy := phy_exact) 3 0 idle_station 100 tt HEADER_TYPE_GENERIC None idle_heap
     = Some ([[]; []; []], None, idle_heap).
Proof.
  destruct (Schedule_no_connection (phy := phy_exact) 0 idle_station 100 tt HEADER_TYPE_GENERIC
              idle_heap eq_refl) as [H1 H2].
  split; [reflexivity|]. split; [exact H1|]. exact (H2 3%nat).
Defined.

(** A connection that holds a bandwidth request only, asked for GENERIC
    packets. *)
Lemma Schedule_other_header_type_witness :
  HasPackets (request_heap 4%nat) = true
  /\ HasPacketsOf HEADER_TYPE_GENERIC (request_heap 4%nat) = false
  /\ Schedule (phy := phy_exact) 0 idle_station 10 tt HEADER_TYPE_GENERIC (Some 4%nat)
       request_heap
     = Some (Returned [] (Some 4%nat) request_heap).
Proof.
  split; [reflexivity|]. split; [reflexivity|].
  exact (proj1 (Schedule_other_header_type (phy := phy_exact) 0 idle_station 10 tt
                  HEADER_TYPE_GENERIC 4%nat request_heap eq_refl eq_refl)).
Defined.

(** C4, as stated, fails with the eligibility of section 4.1: the rtPS
    flow has GENERIC packets and [now + frame_duration] equals its polling
    interval, so its rung (level 5) is the first match of the ladder of the
    specification; [SelectConnection] passes it over and returns the
    broadcast connection (level 8). *)
Lemma SelectConnection_passes_over_eligible_rung :
  rtps_eligible_spec (phy := phy_exact) MoreScenarios.deadline_station
    MoreScenarios.deadline_heap MoreScenarios.rtps_flow
  /\ first_match (priority_ladder_spec (phy := phy_exact) MoreScenarios.deadline_station
                    MoreScenarios.deadline_heap)
     = Some (3%nat, {| level := 5; eligible := true; candidate := Some 4%nat |})
  /\ GetBroadcastConnection MoreScenarios.deadline_station = 3%nat
  /\ SelectConnection (phy := phy_exact) MoreScenarios.deadline_station
       MoreScenarios.deadline_heap = Some 3%nat
  /\ SelectConnection (phy := phy_exact) MoreScenarios.deadline_station
       MoreScenarios.deadline_heap <> Some 4%nat.
Proof.
  split; [split; [reflexivity | vm_compute; discriminate]|].
  split; [vm_compute; reflexivity|]. split; [reflexivity|]. split; [reflexivity|].
  vm_compute. discriminate.
Qed.

(** Scenario S1: initial ranging goes first, the best-effort queue is not
    touched. *)
Example scenario_S1 :
  exists heap',
    Schedule (phy := phy_exact) 2 be_station 100 tt HEADER_TYPE_GENERIC None ranging_heap
    = Some (Returned
              [{| pkt_hdrType := HEADER_TYPE_GENERIC; pkt_size := 40; pkt_fragment := false |}]
              (Some 0%nat) heap')
    /\ heap' 4%nat = ranging_heap 4%nat.
Proof. eexists. split; [vm_compute; reflexivity | reflexivity]. Qed.

(** Scenarios S2 and S3: two grants of 300 bytes on the 1500-byte packet
    give two fragments of 300 bytes. *)
Example scenario_S2_S3 :
  exists heap',
    Schedule_calls (phy := phy_exact) 2 2 be_station 25 tt HEADER_TYPE_GENERIC None be_heap
    = Some ([[{| pkt_hdrType := HEADER_TYPE_GENERIC; pkt_size := 300; pkt_fragment := true |}];
             [{| pkt_hdrType := HEADER_TYPE_GENERIC; pkt_size := 300; pkt_fragment := true |}]],
            Some 4%nat, heap')
    /\ GetQueue (heap' 4%nat)
       = [{| m_hdrType := HEADER_TYPE_GENERIC; m_hdrSize := 6; m_payload := 910;
             m_fragmentation := true |}].
Proof. eexists. split; [vm_compute; reflexivity | reflexivity]. Qed.

(** Scenario S4: the basic connection does not fragment. *)
Example scenario_S4 :
  Schedule (phy := phy_exact) 1 idle_station 1 tt HEADER_TYPE_GENERIC None basic_heap
  = Some (Returned [] (Some 1%nat) basic_heap).
Proof. reflexivity. Qed.

(** Scenario S5: the UGS flow is not due, the rtPS flow is selected. *)
Example scenario_S5 :
  SelectConnection (phy := phy_exact) rtps_station rtps_heap = Some 5%nat.
Proof. reflexivity. Qed.

End Examples.

(** * More properties of the scheduler *)

Section SchedulerFrame.
Context {phy : WimaxPhy} {mq : WimaxMacQueue}.

Implicit Types (heap : Heap) (c : Ptr) (q : Queue) (t : HeaderType) (m : ModulationType).

(** The loop writes to the connection it runs on and to no other, and it
    leaves the type of every connection alone. *)
Lemma Schedule_loop_frame m t c fuel : forall a heap burst burst' a' heap',
  Schedule_loop fuel a m t (Some c) heap burst = Some (burst', a', heap') ->
  (forall c', c' <> c -> heap' c' = heap c') /\ GetType (heap' c) = GetType (heap c).
Proof.
  induction fuel as [|fuel IH]; intros a heap burst burst' a' heap' H.
  - simpl in H. destruct (HasPacketsOf t (heap c)); [discriminate|].
    now injection H as _ _ <-.
  - destruct (HasPacketsOf t (heap c)) eqn:Hp.
    + destruct (Schedule_iteration a m t (heap c)) as [packet a1 q1|] eqn:Hi.
      * rewrite (Schedule_loop_appended fuel a m t c heap burst _ _ _ Hp Hi) in H.
        apply IH in H as [Hother Hty]. rewrite heap_lookup_insert in Hty. split.
        -- intros c' Hc'. rewrite (Hother c' Hc'). apply heap_lookup_insert_ne. congruence.
        -- exact Hty.
      * rewrite (Schedule_loop_break fuel a m t c heap burst Hi) in H.
        now injection H as _ _ <-.
    + rewrite (Schedule_loop_done (S fuel) a m t c heap burst Hp) in H.
      now injection H as _ _ <-.
Qed.

(** X1: a call of [Schedule] that returns changes at most the queue of the
    connection it scheduled (the one passed in, or the one
    [SelectConnection] picked): the connection reference it leaves is that
    connection, every other connection is as it was, and no connection
    changes its type. *)
Theorem Schedule_frame fuel ss a m t connection heap burst connection' heap' :
  Schedule fuel ss a m t connection heap = Some (Returned burst connection' heap') ->
  connection' = scheduled ss connection heap
  /\ (forall c, connection' <> Some c -> heap' c = heap c)
  /\ (forall c, GetType (heap' c) = GetType (heap c)).
Proof.
  intros H. apply Schedule_inv in H as [-> [a' H]]. split; [reflexivity|].
  destruct (scheduled ss connection heap) as [c0|].
  - apply Schedule_loop_frame in H as [Hother Hty]. split.
    + intros c Hc. apply Hother. congruence.
    + intros c. destruct (decide (c = c0)) as [->|Hne]; [exact Hty|].
      now rewrite (Hother c Hne).
  - rewrite Schedule_loop_null in H. injection H as _ _ <-. now split.
Qed.

(** A loop that returns the burst it started with has not run a pass that
    dequeues. *)
Lemma Schedule_loop_same_burst fuel a m t connection heap burst a' heap' :
  Schedule_loop fuel a m t connection heap burst = Some (burst, a', heap') ->
  a' = a /\ heap' = heap.
Proof.
  intros H. destruct connection as [c|]; [|rewrite Schedule_loop_null in H;
    now injection H as <- <-].
  destruct (HasPacketsOf t (heap c)) eqn:Hp;
    [|rewrite (Schedule_loop_done fuel a m t c heap burst Hp) in H; now injection H as <- <-].
  destruct fuel as [|fuel]; [simpl in H; rewrite Hp in H; discriminate|].
  destruct (Schedule_iteration a m t (heap c)) as [packet a1 q1|] eqn:Hi.
  - rewrite (Schedule_loop_appended fuel a m t c heap burst _ _ _ Hp Hi) in H.
    apply Schedule_loop_prefix in H as [rest Hrest].
    rewrite <- app_assoc in Hrest. apply (f_equal length) in Hrest.
    rewrite length_app in Hrest. simpl in Hrest. lia.
  - rewrite (Schedule_loop_break fuel a m t c heap burst Hi) in H. now injection H as <- <-.
Qed.

(** X2: a call of [Schedule] that returns an empty burst has dequeued
    nothing: the heap it leaves is the heap it was given. *)
Theorem Schedule_empty_burst_heap fuel ss a m t connection heap connection' heap' :
  Schedule fuel ss a m t connection heap = Some (Returned [] connection' heap') ->
  heap' = heap.
Proof.
  intros H. apply Schedule_inv in H as [_ [a' H]].
  now apply Schedule_loop_same_burst in H.
Qed.

(** [Schedule] ends in the failed assertion exactly when it is given a
    connection that has no packets; with a null reference it never does. *)
Lemma Schedule_assert_iff fuel ss a m t connection heap :
  Schedule fuel ss a m t connection heap = Some AssertFailed
  <-> exists c, connection = Some c /\ HasPackets (heap c) = false.
Proof.
  unfold Schedule. split.
  - intros H. destruct connection as [c|].
    + destruct (HasPackets (heap c)) eqn:Hp; [|eauto].
      destruct (Schedule_loop fuel a m t (Some c) heap []) as [[[b a'] h]|]; discriminate.
    + destruct (Schedule_loop fuel a m t (SelectConnection ss heap) heap [])
        as [[[b a'] h]|]; discriminate.
  - intros (c & -> & Hp). now rewrite Hp.
Qed.

(** X4: when the loop is over and packets of the header type are still
    queued, the symbols left do not pay for the head packet, and on a
    TRANSPORT connection they do not even pay for more than its header
    with a fragment sub-header. *)
Theorem Schedule_loop_exit m t c fuel : forall a heap burst burst' a' heap',
  Schedule_loop fuel a m t (Some c) heap burst = Some (burst', a', heap') ->
  HasPacketsOf t (heap' c) = true ->
  availableByte a' m < requiredByte t (GetQueue (heap' c))
  /\ (GetType (heap' c) = Cid.TRANSPORT ->
      availableByte a' m <= headerSize t (GetQueue (heap' c))).
Proof.
  induction fuel as [|fuel IH]; intros a heap burst burst' a' heap' H Hleft.
  - simpl in H. destruct (HasPacketsOf t (heap c)) eqn:Hp; [discriminate|].
    injection H as _ _ <-. congruence.
  - destruct (HasPacketsOf t (heap c)) eqn:Hp.
    + destruct (Schedule_iteration a m t (heap c)) as [packet a1 q1|] eqn:Hi.
      * rewrite (Schedule_loop_appended fuel a m t c heap burst _ _ _ Hp Hi) in H.
        now apply IH in H.
      * rewrite (Schedule_loop_break fuel a m t c heap burst Hi) in H.
        injection H as _ <- <-. unfold Schedule_iteration in Hi.
        destruct (Z.geb_spec (availableByte a m) (requiredByte t (GetQueue (heap c)))).
        { destruct (Dequeue t (GetQueue (heap c))). discriminate. }
        split; [assumption|]. intros Ht. rewrite Ht in Hi. simpl in Hi.
        destruct (Z.gtb_spec (availableByte a m) (headerSize t (GetQueue (heap c))));
          [|lia].
        destruct (DequeueFragment t (availableByte a m) (GetQueue (heap c))). discriminate.
    + rewrite (Schedule_loop_done (S fuel) a m t c heap burst Hp) in H.
      injection H as _ _ <-. congruence.
Qed.

(** X5: progress.  When the connection has packets of the header type and
    the grant pays for the head packet, or, on a TRANSPORT connection, for
    more than its header with a fragment sub-header, every burst the loop
    returns starts with a packet dequeued from that connection. *)
Theorem Schedule_loop_progress fuel a m t c heap burst a' heap' :
  HasPacketsOf t (heap c) = true ->
  availableByte a m >= requiredByte t (GetQueue (heap c))
  \/ (GetType (heap c) = Cid.TRANSPORT
      /\ availableByte a m > headerSize t (GetQueue (heap c))) ->
  Schedule_loop fuel a m t (Some c) heap [] = Some (burst, a', heap') ->
  exists packet rest,
    burst = packet :: rest
    /\ (packet = (Dequeue t (GetQueue (heap c))).1
        \/ packet = (DequeueFragment t (availableByte a m) (GetQueue (heap c))).1).
Proof.
  intros Hp Hroom H.
  destruct fuel as [|fuel]; [simpl in H; rewrite Hp in H; discriminate|].
  assert (Hi : exists packet a1 q1,
             Schedule_iteration a m t (heap c) = Appended packet a1 q1
             /\ (packet = (Dequeue t (GetQueue (heap c))).1
                 \/ packet = (DequeueFragment t (availableByte a m) (GetQueue (heap c))).1)).
  { destruct (Z_lt_ge_dec (availableByte a m) (requiredByte t (GetQueue (heap c))))
      as [Hlt|Hge].
    - destruct Hroom as [Hge|[Ht Hgt]]; [lia|].
      rewrite (Schedule_iteration_fragment a m t (heap c) Hlt Ht Hgt). eauto 6.
    - rewrite (Schedule_iteration_whole a m t (heap c) Hge). eauto 6. }
  destruct Hi as (packet & a1 & q1 & Hi & Hfrom).
  rewrite (Schedule_loop_appended fuel a m t c heap [] _ _ _ Hp Hi) in H.
  apply Schedule_loop_prefix in H as [rest ->]. exists packet, rest. now split.
Qed.

(** The packed connection is what [SelectConnection] would pass the
    assertion with: it has packets of some header type. *)
Lemma first_flow_has_packets cond heap flows otherwise c :
  (forall sf, cond sf = true ->
     SF_HasPackets heap sf = true \/ SF_HasPacketsOf heap HEADER_TYPE_GENERIC sf = true) ->
  first_flow cond flows otherwise = Some c ->
  HasPackets (heap c) = true \/ HasPacketsOf HEADER_TYPE_GENERIC (heap c) = true
  \/ otherwise = Some c.
Proof.
  intros Hcond. induction flows as [|sf flows IH]; simpl; [auto|].
  destruct (cond sf) eqn:Hsf; [|exact IH].
  intros Hc. unfold SF_HasPackets, SF_HasPacketsOf in Hcond.
  destruct (Hcond sf Hsf) as [H|H]; rewrite Hc in H; auto.
Qed.

Lemma SelectConnection_has_packets ss heap c :
  SelectConnection ss heap = Some c ->
  HasPackets (heap c) = true \/ HasPacketsOf HEADER_TYPE_GENERIC (heap c) = true.
Proof.
  unfold SelectConnection.
  destruct (HasPackets (heap (GetInitialRangingConnection ss))) eqn:H1;
    [intros [= <-]; auto|].
  destruct (HasPackets (heap (GetBasicConnection ss))) eqn:H2; [intros [= <-]; auto|].
  destruct (HasPackets (heap (GetPrimaryConnection ss))) eqn:H3; [intros [= <-]; auto|].
  intros H.
  apply (first_flow_has_packets _ heap) in H as [H|[H|H]]; auto;
    [|unfold ugs_condition; intros sf [? _]%andb_true_iff; auto].
  apply (first_flow_has_packets _ heap) in H as [H|[H|H]]; auto;
    [|unfold rtps_condition; intros sf [? _]%andb_true_iff; auto].
  apply (first_flow_has_packets _ heap) in H as [H|[H|H]]; auto.
  apply (first_flow_has_packets _ heap) in H as [H|[H|H]]; auto.
  destruct (HasPackets (heap (GetBroadcastConnection ss))) eqn:H4; [|discriminate].
  injection H as <-. auto.
Qed.

(** X6: with a queue that is empty of every header type when it is empty,
    the connection [SelectConnection] picks has packets, so it passes the
    assertion of [Schedule]: a call with a null reference does what a call
    with the picked connection passed in does. *)
Theorem Schedule_selected_explicitly fuel ss a m t heap c :
  (forall t' q, IsEmpty q = true -> IsEmptyOf t' q = true) ->
  SelectConnection ss heap = Some c ->
  HasPackets (heap c) = true
  /\ Schedule fuel ss a m t (Some c) heap = Schedule fuel ss a m t None heap.
Proof.
  intros Hlaw Hsel.
  assert (Hp : HasPackets (heap c) = true).
  { destruct (SelectConnection_has_packets ss heap c Hsel) as [H|H]; [exact H|].
    unfold HasPackets, HasPacketsOf in *.
    destruct (IsEmpty (GetQueue (heap c))) eqn:He; [|reflexivity].
    now rewrite (Hlaw _ _ He) in H. }
  split; [exact Hp|]. unfold Schedule. now rewrite Hp, Hsel.
Qed.

Section Accounting.
Variables (ok : Queue -> Prop) (weight : Queue -> nat).
Hypothesis laws : WimaxMacQueueLaws mq ok weight.

Lemma burst_symbols_snoc burst packet m :
  burst_symbols (burst ++ [packet]) m
  = burst_symbols burst m + GetNrSymbols (u32 (GetSize packet)) m.
Proof.
  unfold burst_symbols. induction burst as [|p burst IH]; simpl; [lia|].
  rewrite IH. lia.
Qed.

Lemma Schedule_loop_spends `{!WimaxPhyLaws phy} m t c fuel :
  forall a heap burst burst' a' heap',
  0 <= a < 65536 ->
  ok (GetQueue (heap c)) ->
  Schedule_loop fuel a m t (Some c) heap burst = Some (burst', a', heap') ->
  a' = a - (burst_symbols burst' m - burst_symbols burst m) /\ 0 <= a' <= a.
Proof.
  induction fuel as [|fuel IH]; intros a heap burst burst' a' heap' Ha Hok H.
  - simpl in H. destruct (HasPacketsOf t (heap c)); [discriminate|].
    injection H as <- <- _. lia.
  - destruct (HasPacketsOf t (heap c)) eqn:Hp.
    + destruct (Schedule_iteration a m t (heap c)) as [packet a1 q1|] eqn:Hi.
      * rewrite (Schedule_loop_appended fuel a m t c heap burst _ _ _ Hp Hi) in H.
        destruct (Schedule_iteration_laws ok weight laws _ _ _ _ _ _ _ Hok Hp Hi)
          as (Hok' & _ & Hsize).
        apply Schedule_iteration_cost in Hi.
        pose proof (u32_range (GetSize packet)) as Hs.
        assert (HA : availableByte a m <= GetNrBytes a m).
        { unfold availableByte. apply u32_le. apply GetNrBytes_nonneg. lia. }
        assert (Hcost : 0 <= GetNrSymbols (u32 (GetSize packet)) m <= a).
        { split; [apply GetNrSymbols_nonneg; lia|]. apply GetNrSymbols_least; lia. }
        assert (Ha1 : a1 = a - GetNrSymbols (u32 (GetSize packet)) m).
        { subst a1. unfold subtract_symbols, nrSymbolsRequired.
          rewrite (u16_small (GetNrSymbols _ m)) by lia. apply u16_small. lia. }
        apply IH in H; [|lia|now rewrite heap_lookup_insert].
        rewrite burst_symbols_snoc in H. lia.
      * rewrite (Schedule_loop_break fuel a m t c heap burst Hi) in H.
        injection H as <- <- _. lia.
    + rewrite (Schedule_loop_done (S fuel) a m t c heap burst Hp) in H.
      injection H as <- <- _. lia.
Qed.

(** X7: with an exact PHY and a queue that keeps its promises the 16-bit
    counter never wraps: the symbols left when the loop is over are the
    grant minus the symbols of every packet of the burst, so the packets
    of the burst together are charged no more than the grant. *)
Theorem Schedule_loop_accounting `{!WimaxPhyLaws phy} fuel a m t c heap burst a' heap' :
  0 <= a < 65536 ->
  ok (GetQueue (heap c)) ->
  Schedule_loop fuel a m t (Some c) heap [] = Some (burst, a', heap') ->
  a' = a - burst_symbols burst m /\ 0 <= a' /\ burst_symbols burst m <= a.
Proof.
  intros Ha Hok H.
  apply (Schedule_loop_spends m t c fuel a heap [] burst a' heap' Ha Hok) in H.
  simpl in H. lia.
Qed.



End Accounting.

End SchedulerFrame.

(** * Properties of the fat-tree script *)

Module FatTreeProperties.
Import stdpp.gmap.
Import FatTree.
Local Open Scope Z_scope.

(** ** Servers, racks and positions *)

Lemma index_place idx :
  0 <= idx < NUM_SERVERS ->
  0 <= receiverRack idx < NUM_RACKS /\ 0 <= receiverPos idx < SERVERS_PER_RACK.
Proof.
  unfold receiverRack, receiverPos, NUM_SERVERS, NUM_RACKS.
  change SERVERS_PER_RACK with 16. intros H. split.
  - split; [apply Z.div_pos; lia | apply Z.div_lt_upper_bound; lia].
  - apply Z.mod_pos_bound. lia.
Qed.

(** X9: the rack and the position [StartBackgroundFlow] and [StartIncast]
    compute from a server index pass the two assertions of [GetServer],
    and [GetServer] gives back the server they were computed from. *)
Theorem GetServer_of_index idx :
  0 <= idx < NUM_SERVERS ->
  0 <= receiverRack idx < NUM_RACKS
  /\ 0 <= receiverPos idx < SERVERS_PER_RACK
  /\ GetServer (receiverRack idx) (receiverPos idx) = Value idx.
Proof.
  unfold GetServer, receiverRack, receiverPos, NUM_SERVERS, NUM_RACKS.
  change SERVERS_PER_RACK with 16. intros H.
  assert (Hr : 0 <= idx / 16 < 20).
  { split; [apply Z.div_pos; lia | apply Z.div_lt_upper_bound; lia]. }
  pose proof (Z.mod_pos_bound idx 16 ltac:(lia)) as Hp.
  pose proof (Z.div_mod idx 16 ltac:(lia)) as Hd.
  split; [exact Hr|]. split; [exact Hp|].
  destruct (Z.ltb_spec (idx / 16) 20); [|lia].
  destruct (Z.ltb_spec (idx mod 16) 16); [|lia]. simpl.
  rewrite (u32_small (idx / 16 * 16)) by lia. rewrite u32_small by lia.
  f_equal. lia.
Qed.

(** X10: a server [GetServer] returns is a node of [m_servers] (its index
    is below [NUM_SERVERS]), and the rack and the position are those of
    that index: two different places never give the same server. *)
Theorem GetServer_inv rack position idx :
  0 <= rack -> 0 <= position ->
  GetServer rack position = Value idx ->
  0 <= idx < NUM_SERVERS /\ receiverRack idx = rack /\ receiverPos idx = position.
Proof.
  unfold GetServer, receiverRack, receiverPos, NUM_SERVERS, NUM_RACKS.
  change SERVERS_PER_RACK with 16. intros Hr Hp.
  destruct (Z.ltb_spec rack 20); [|discriminate].
  destruct (Z.ltb_spec position 16); [|discriminate]. simpl.
  rewrite (u32_small (rack * 16)) by lia. rewrite u32_small by lia.
  intros [= <-]. split; [lia|]. split.
  - symmetry. apply (Z.div_unique _ 16 rack position); lia.
  - symmetry. apply (Z.mod_unique _ 16 rack position); lia.
Qed.

Lemma GetServerAddress_in_place {Ipv4Address : Type} (any : Ipv4Address)
    (m_serverInterfaces : list (list Ipv4Address)) rack position interfaces :
  0 <= rack < NUM_RACKS -> 0 <= position < SERVERS_PER_RACK ->
  m_serverInterfaces !! Z.to_nat rack = Some interfaces ->
  GetServerAddress any m_serverInterfaces rack position
  = Value (default any (interfaces !! Z.to_nat (2 * position))).
Proof.
  intros Hr Hp Hrack.
  change SERVERS_PER_RACK with 16 in Hp. unfold NUM_RACKS in Hr.
  unfold GetServerAddress. rewrite Hrack.
  unfold NUM_RACKS. change SERVERS_PER_RACK with 16.
  destruct (Z.ltb_spec rack 20); [|lia].
  destruct (Z.ltb_spec position 16); [|lia]. simpl.
  rewrite u32_small by lia.
  replace (position * 2) with (2 * position) by lia.
  destruct (Z.geb_spec (2 * position) (Z.of_nat (length interfaces))) as [Hge|Hlt].
  - rewrite lookup_ge_None_2 by lia. reflexivity.
  - destruct (lookup_lt_is_Some_2 interfaces (Z.to_nat (2 * position)) ltac:(lia))
      as [addr Haddr].
    now rewrite Haddr.
Qed.

(** X11: for the rack and the position of a server index, with the
    interface container of the rack in place, [GetServerAddress] neither
    fails an assertion nor reads beyond a container: it returns the
    address at index [2 * position], and [0.0.0.0] when the container has
    no such entry. *)
Theorem GetServerAddress_of_index {Ipv4Address : Type} (any : Ipv4Address)
    (m_serverInterfaces : list (list Ipv4Address)) idx interfaces :
  0 <= idx < NUM_SERVERS ->
  m_serverInterfaces !! Z.to_nat (receiverRack idx) = Some interfaces ->
  GetServerAddress any m_serverInterfaces (receiverRack idx) (receiverPos idx)
  = Value (default any (interfaces !! Z.to_nat (2 * receiverPos idx))).
Proof.
  intros Hidx Hrack. destruct (index_place idx Hidx) as [Hr Hp].
  now apply GetServerAddress_in_place.
Qed.

(** ** Ports *)

Lemma u16_u32 z : u16 (u32 z) = u16 z.
Proof.
  unfold u16, u32.
  rewrite (Z.div_mod z 4294967296) at 2 by lia.
  replace (4294967296 * (z / 4294967296) + z mod 4294967296)
    with (z mod 4294967296 + (65536 * (z / 4294967296)) * 65536) by lia.
  now rewrite Z.mod_add by lia.
Qed.

Lemma u16_add_l x y : u16 (u16 x + y) = u16 (x + y).
Proof. unfold u16. apply Z.add_mod_idemp_l. lia. Qed.

Lemma u16_inj_near s k k' :
  0 <= k < 65536 -> 0 <= k' < 65536 -> u16 (s + k) = u16 (s + k') -> k = k'.
Proof.
  unfold u16. intros Hk Hk' H.
  assert (Hd : (k - k') mod 65536 = 0).
  { replace (k - k') with ((s + k) - (s + k')) by lia.
    rewrite Zminus_mod, H, Z.sub_diag. reflexivity. }
  apply Z.mod_divide in Hd as [q Hq]; lia.
Qed.

Lemma GetUniquePort_fresh r isTcp (m : gmap Z Z) :
  m !! r = None ->
  GetUniquePort r isTcp m
  = (u16 ((if isTcp then 8000 else 9000) + r),
     <[r := u16 ((if isTcp then 8000 else 9000) + r)]> m).
Proof.
  intros H. unfold GetUniquePort. rewrite H, u16_u32.
  now rewrite lookup_total_insert_eq.
Qed.

Lemma GetUniquePort_again r isTcp (m : gmap Z Z) port :
  m !! r = Some port ->
  GetUniquePort r isTcp m = (u16 (port + 1), <[r := u16 (port + 1)]> m).
Proof.
  intros H. unfold GetUniquePort. rewrite H. now rewrite lookup_total_insert_eq.
Qed.

Lemma GetUniquePort_next r isTcp (m : gmap Z Z) :
  GetUniquePort r isTcp m
  = (u16 (next_port r isTcp m), <[r := u16 (next_port r isTcp m)]> m).
Proof.
  unfold next_port. destruct (m !! r) as [port|] eqn:H.
  - now apply GetUniquePort_again.
  - now apply GetUniquePort_fresh.
Qed.

Lemma fmap_seqZ_succ {A} (f : Z -> A) n :
  0 <= n -> f <$> seqZ 0 (Z.succ n) = f 0 :: ((fun k => f (1 + k)) <$> seqZ 0 n).
Proof.
  intros Hn. rewrite (seqZ_cons 0 (Z.succ n)) by lia. rewrite Z.pred_succ.
  cbn [fmap list_fmap]. f_equal.
  change (Z.succ 0) with (1 + 0). rewrite <- (fmap_add_seqZ 1 0), <- list_fmap_compose.
  reflexivity.
Qed.

Lemma GetUniquePort_calls_known r flags : forall (m : gmap Z Z) port,
  m !! r = Some port ->
  (GetUniquePort_calls ((fun isTcp => (r, isTcp)) <$> flags) m).1
  = (fun k => u16 (port + 1 + k)) <$> seqZ 0 (Z.of_nat (length flags)).
Proof.
  induction flags as [|isTcp flags IH]; intros m port Hm; [reflexivity|].
  cbn [fmap list_fmap GetUniquePort_calls length].
  rewrite (GetUniquePort_again r isTcp m port Hm).
  specialize (IH (<[r := u16 (port + 1)]> m) (u16 (port + 1)) (lookup_insert_eq _ _ _)).
  destruct (GetUniquePort_calls _ _) as [ports m']. simpl in IH |- *.
  rewrite IH, Nat2Z.inj_succ, fmap_seqZ_succ by lia.
  rewrite Z.add_0_r. f_equal.
  apply list_fmap_ext. intros _ k _. simpl.
  rewrite <- Z.add_assoc, u16_add_l. reflexivity.
Qed.

Lemma GetUniquePort_calls_ports r isTcp flags (m : gmap Z Z) :
  (GetUniquePort_calls ((fun b => (r, b)) <$> (isTcp :: flags)) m).1
  = (fun k => u16 (next_port r isTcp m + k)) <$> seqZ 0 (Z.of_nat (S (length flags))).
Proof.
  cbn [fmap list_fmap GetUniquePort_calls].
  rewrite GetUniquePort_next.
  pose proof (GetUniquePort_calls_known r flags
                (<[r := u16 (next_port r isTcp m)]> m) (u16 (next_port r isTcp m))
                (lookup_insert_eq _ _ _)) as H.
  destruct (GetUniquePort_calls _ _) as [ports m']. simpl in H |- *.
  rewrite H, Nat2Z.inj_succ, fmap_seqZ_succ by lia.
  rewrite Z.add_0_r. f_equal.
  apply list_fmap_ext. intros _ k _. simpl.
  rewrite <- Z.add_assoc, u16_add_l. reflexivity.
Qed.

(** X12: successive calls of [GetUniquePort] for one receiver return
    consecutive ports modulo 2^16, from the first one on: the base port of
    the protocol of the first call plus the receiver index when the
    receiver is new, one more than its last port otherwise.  The protocol
    flag of every later call is ignored. *)
Theorem GetUniquePort_sequence r isTcp flags (m : gmap Z Z) :
  (GetUniquePort_calls ((fun b => (r, b)) <$> (isTcp :: flags)) m).1
  = (fun k => u16 (next_port r isTcp m + k)) <$> seqZ 0 (Z.of_nat (S (length flags))).
Proof. apply GetUniquePort_calls_ports. Qed.

(** X13: up to 65536 successive calls of [GetUniquePort] for one receiver
    return ports that are all different. *)
Theorem GetUniquePort_distinct r flags (m : gmap Z Z) :
  Z.of_nat (length flags) <= 65536 ->
  NoDup (GetUniquePort_calls ((fun b => (r, b)) <$> flags) m).1.
Proof.
  intros Hlen. destruct flags as [|isTcp flags]; [constructor|].
  rewrite GetUniquePort_calls_ports.
  apply NoDup_fmap_2_strong; [|apply NoDup_seqZ].
  cbn [length] in Hlen.
  intros k k' Hk%elem_of_seqZ Hk'%elem_of_seqZ.
  apply u16_inj_near; lia.
Qed.

(** X14: a call of [GetUniquePort] for one receiver leaves the entry of
    every other receiver alone and stores the port it returns, so calls
    for two different receivers return the same ports and leave the same
    map in either order. *)
Theorem GetUniquePort_independent r r' isTcp isTcp' (m : gmap Z Z) :
  r <> r' ->
  (GetUniquePort r isTcp m).2 !! r' = m !! r'
  /\ (GetUniquePort r isTcp m).2 !! r = Some (GetUniquePort r isTcp m).1
  /\ (GetUniquePort r' isTcp' (GetUniquePort r isTcp m).2).1 = (GetUniquePort r' isTcp' m).1
  /\ (GetUniquePort r' isTcp' (GetUniquePort r isTcp m).2).2
     = (GetUniquePort r isTcp (GetUniquePort r' isTcp' m).2).2.
Proof.
  intros Hne.
  assert (Hn : forall a b b' (m0 : gmap Z Z) v, a <> b ->
            next_port b b' (<[a := v]> m0) = next_port b b' m0).
  { intros a b b' m0 v Hab. unfold next_port. now rewrite lookup_insert_ne. }
  rewrite !GetUniquePort_next. simpl.
  rewrite ?GetUniquePort_next. simpl.
  rewrite !Hn by congruence.
  split; [now apply lookup_insert_ne|]. split; [apply lookup_insert_eq|].
  split; [reflexivity|]. now apply insert_insert_ne.
Qed.

(** ** Random pairs and incast senders *)

Lemma draw_receiver_inv sender tape receiver rest :
  draw_receiver sender tape = Some (receiver, rest) ->
  receiver <> sender /\ exists k, tape = replicate k sender ++ receiver :: rest.
Proof.
  induction tape as [|x tape IH]; simpl; [discriminate|].
  destruct (Z.eqb_spec x sender) as [->|Hne].
  - intros H. destruct (IH H) as [Hr [k ->]]. split; [exact Hr|]. now exists (S k).
  - intros [= <- <-]. split; [exact Hne|]. now exists O.
Qed.

Lemma draw_receiver_is_Some sender tape :
  is_Some (draw_receiver sender tape) <-> exists x, x ∈ tape /\ x <> sender.
Proof.
  induction tape as [|x tape IH]; simpl.
  - split; [intros [? [=]] | intros (x & Hx & _); inversion Hx].
  - destruct (Z.eqb_spec x sender) as [->|Hne].
    + rewrite IH. split.
      * intros (y & Hy & Hne). exists y. split; [now right | exact Hne].
      * intros (y & Hy & Hne). exists y. split; [|exact Hne].
        apply elem_of_cons in Hy as [->|Hy]; [contradiction | exact Hy].
    + split; [|eauto]. intros _. exists x. split; [now left | exact Hne].
Qed.

(** X15: a pair [GetRandomServerPair] returns has two different members:
    the sender is the first integer drawn, the receiver the first one
    drawn after it that is not the sender, and every draw in between was
    the sender again.  Both are integers the random variable returned, so
    they lie in whatever range it draws from. *)
Theorem GetRandomServerPair_inv tape sender receiver rest :
  GetRandomServerPair tape = Some ((sender, receiver), rest) ->
  sender <> receiver
  /\ (exists k, tape = sender :: replicate k sender ++ receiver :: rest)
  /\ forall lo hi, Forall (fun x => lo <= x <= hi) tape ->
                   lo <= sender <= hi /\ lo <= receiver <= hi.
Proof.
  unfold GetRandomServerPair, GetInteger. destruct tape as [|s tape]; [discriminate|].
  destruct (draw_receiver s tape) as [[r tape'']|] eqn:Hd; [|discriminate].
  intros [= <- <- <-]. apply draw_receiver_inv in Hd as [Hne [k ->]].
  split; [congruence|]. split; [now exists k|].
  intros lo hi Hall. apply Forall_cons in Hall as [Hs Hall].
  apply Forall_app in Hall as [_ Hall]. apply Forall_cons in Hall as [Hr _]. now split.
Qed.

(** X16: [GetRandomServerPair] returns exactly when the random variable,
    after the sender, sooner or later draws an integer that is not the
    sender; while it draws the sender again the loop goes on. *)
Theorem GetRandomServerPair_returns sender tape :
  is_Some (GetRandomServerPair (sender :: tape)) <-> exists x, x ∈ tape /\ x <> sender.
Proof.
  rewrite <- draw_receiver_is_Some. unfold GetRandomServerPair. simpl.
  destruct (draw_receiver sender tape) as [[r rest]|]; split; eauto;
    intros [? [=]].
Qed.

Lemma availableSenders_elem receiverIdx i :
  i ∈ availableSenders receiverIdx <-> 0 <= i < NUM_SERVERS /\ i <> receiverIdx.
Proof.
  unfold availableSenders. rewrite list_elem_of_filter, elem_of_seqZ.
  split; intros; intuition lia.
Qed.

Lemma availableSenders_NoDup receiverIdx : NoDup (availableSenders receiverIdx).
Proof. apply NoDup_filter, NoDup_seqZ. Qed.

Lemma NoDup_all_equal (l : list Z) x :
  NoDup l -> Forall (fun y => y = x) l -> (length l <= 1)%nat.
Proof.
  intros Hnd Hall. destruct l as [|a [|b l]]; simpl; try lia.
  apply NoDup_cons in Hnd as [Hab _].
  apply Forall_cons in Hall as [-> Hall]. apply Forall_cons in Hall as [-> _].
  exfalso. apply Hab. now left.
Qed.

Lemma availableSenders_length receiverIdx :
  (319 <= length (availableSenders receiverIdx) <= 320)%nat.
Proof.
  unfold availableSenders.
  pose proof (filter_app_complement (fun i => i <> receiverIdx) (seqZ 0 NUM_SERVERS)) as Hc.
  apply Permutation_length in Hc. rewrite length_app, length_seqZ in Hc.
  assert (Hone : (length (filter (fun i => ~ i <> receiverIdx) (seqZ 0 NUM_SERVERS)) <= 1)%nat).
  { apply (NoDup_all_equal _ receiverIdx); [apply NoDup_filter, NoDup_seqZ|].
    apply Forall_forall. intros y [Hy _]%list_elem_of_filter.
    destruct (decide (y = receiverIdx)); [assumption|contradiction]. }
  change (Z.to_nat NUM_SERVERS) with 320%nat in Hc. lia.
Qed.

Lemma lookups_take (l : list Z) n :
  (n <= length l)%nat ->
  (fun i => l !!! Z.to_nat i) <$> seqZ 0 (Z.of_nat n) = take n l.
Proof.
  intros Hn. apply list_eq. intros i. rewrite list_lookup_fmap.
  destruct (decide (i < n)%nat) as [Hi|Hi].
  - rewrite lookup_seqZ_lt, lookup_take_lt by lia. simpl.
    rewrite Z.add_0_l, Nat2Z.id.
    destruct (lookup_lt_is_Some_2 l i ltac:(lia)) as [x Hx].
    rewrite Hx. f_equal. now apply list_lookup_total_correct.
  - rewrite lookup_seqZ_ge, lookup_take_ge by lia. reflexivity.
Qed.

Lemma first_senders_spec (availableSenders' : list Z) receiverIdx :
  availableSenders' ≡ₚ availableSenders receiverIdx ->
  let senders :=
    (fun i => availableSenders' !!! Z.to_nat i)
      <$> seqZ 0 (Z.min INCAST_SENDERS (u32 (Z.of_nat (length availableSenders')))) in
  length senders = 64%nat
  /\ NoDup senders
  /\ Forall (fun s => 0 <= s < NUM_SERVERS /\ s <> receiverIdx) senders.
Proof.
  intros Hp. cbv zeta.
  pose proof (availableSenders_length receiverIdx) as Hlen.
  rewrite <- (Permutation_length Hp) in Hlen.
  set (S := availableSenders') in *.
  rewrite (u32_small (Z.of_nat (length S))) by lia.
  unfold INCAST_SENDERS. rewrite Z.min_l by lia.
  change 64 with (Z.of_nat 64). rewrite lookups_take by lia.
  split; [apply length_take_le; lia|]. split.
  - eapply sublist_NoDup; [|apply sublist_take].
    rewrite Hp. apply availableSenders_NoDup.
  - apply Forall_forall. intros s Hs%subseteq_take.
    rewrite Hp in Hs. now apply availableSenders_elem in Hs.
Qed.

(** X17: for a receiver that is a server of the topology, with the
    interface container of its rack in place, [StartIncast] returns at
    once when the address of the receiver (entry [2 * position] of the
    container, [0.0.0.0] when there is none) is [0.0.0.0]: it starts no
    source and leaves the port map as it was.  Otherwise, whatever
    permutation [std::random_shuffle] makes, it takes the next TCP port of
    the receiver and starts its sources on exactly 64 senders, all
    different, all servers of the topology, and none of them the
    receiver. *)
Theorem StartIncast_senders {Ipv4Address : Type} `{!EqDecision Ipv4Address}
    (any : Ipv4Address) (m_serverInterfaces : list (list Ipv4Address))
    (shuffle : list Z -> list Z) receiverIdx m_receiverPortMap interfaces :
  (forall l, shuffle l ≡ₚ l) ->
  0 <= receiverIdx < NUM_SERVERS ->
  m_serverInterfaces !! Z.to_nat (receiverRack receiverIdx) = Some interfaces ->
  (default any (interfaces !! Z.to_nat (2 * receiverPos receiverIdx)) = any ->
   StartIncast any m_serverInterfaces shuffle receiverIdx m_receiverPortMap
   = Value (None, m_receiverPortMap))
  /\ (default any (interfaces !! Z.to_nat (2 * receiverPos receiverIdx)) <> any ->
      exists incast,
        StartIncast any m_serverInterfaces shuffle receiverIdx m_receiverPortMap
        = Value (Some incast, (GetUniquePort receiverIdx true m_receiverPortMap).2)
        /\ port incast = (GetUniquePort receiverIdx true m_receiverPortMap).1
        /\ length (senders incast) = 64%nat
        /\ NoDup (senders incast)
        /\ Forall (fun s => 0 <= s < NUM_SERVERS /\ s <> receiverIdx) (senders incast)).
Proof.
  intros Hperm Hidx Hrack. unfold StartIncast.
  destruct (Z.ltb_spec receiverIdx NUM_SERVERS) as [_|]; [|lia]. cbn [negb].
  change (receiverIdx / SERVERS_PER_RACK) with (receiverRack receiverIdx).
  change (receiverIdx mod SERVERS_PER_RACK) with (receiverPos receiverIdx).
  destruct (index_place receiverIdx Hidx) as [Hr Hp].
  rewrite !u32_small
    by (unfold NUM_RACKS in Hr; change SERVERS_PER_RACK with 16 in Hp; lia).
  rewrite (GetServerAddress_in_place any m_serverInterfaces _ _ interfaces Hr Hp Hrack).
  split.
  - intros Hany. now destruct (decide _).
  - intros Hne. destruct (decide _) as [|_]; [contradiction|].
    destruct (GetUniquePort receiverIdx true m_receiverPortMap) as [p m'] eqn:Hport.
    eexists. split; [reflexivity|]. split; [reflexivity|].
    apply first_senders_spec, Hperm.
Qed.

(** ** Subnets *)

Lemma link_network_bounds a b n :
  0 <= n < 16384 ->
  0 <= (link_network a b n).1.2 < 256 /\ 0 <= (link_network a b n).2 <= 252.
Proof.
  intros Hn. unfold link_network. simpl.
  pose proof (Z.mod_pos_bound n 64 ltac:(lia)) as Hm.
  rewrite u32_small by lia.
  split; [split; [apply Z.div_pos; lia | apply Z.div_lt_upper_bound; lia]|]. lia.
Qed.

(** X18: the network ["a.b.(n / 64).((n % 64) * 4)"] of the [n]-th link
    is a dotted quad for every counter below 16384 (the third number is
    below 256, the fourth a multiple of 4 of at most 252, which leaves
    room for the four addresses of a /30), and two counters never give the
    same network. *)
Theorem link_network_octets a b n :
  0 <= n < 16384 ->
  0 <= (link_network a b n).1.2 < 256
  /\ 0 <= (link_network a b n).2 <= 252
  /\ (link_network a b n).2 mod 4 = 0
  /\ forall n', link_network a b n = link_network a b n' -> n = n'.
Proof.
  intros Hn. unfold link_network. simpl.
  pose proof (Z.mod_pos_bound n 64 ltac:(lia)) as Hm.
  rewrite u32_small by lia.
  split; [split; [apply Z.div_pos; lia | apply Z.div_lt_upper_bound; lia]|].
  split; [lia|]. split; [apply Z.mod_mul; lia|].
  intros n' [= Hd Ho].
  pose proof (Z.mod_pos_bound n' 64 ltac:(lia)) as Hm'.
  rewrite u32_small in Ho by lia.
  rewrite (Z.div_mod n 64), (Z.div_mod n' 64) by lia. lia.
Qed.

Lemma torAggNetworks_flat :
  torAggNetworks
  = (fun n => {| link_from := n / NUM_AGG_SWITCHES; link_to := n mod NUM_AGG_SWITCHES;
                 network := link_network 172 16 n |})
    <$> seqZ 0 (NUM_RACKS * NUM_AGG_SWITCHES).
Proof. vm_compute. reflexivity. Qed.

Lemma aggCoreNetworks_flat :
  aggCoreNetworks
  = (fun n => {| link_from := n / NUM_CORE_SWITCHES; link_to := n mod NUM_CORE_SWITCHES;
                 network := link_network 192 168 n |})
    <$> seqZ 0 (NUM_AGG_SWITCHES * NUM_CORE_SWITCHES).
Proof. vm_compute. reflexivity. Qed.

Lemma link_networks_NoDup a b count :
  NoDup (link_network a b <$> seqZ 0 count).
Proof.
  apply NoDup_fmap_2_strong; [|apply NoDup_seqZ].
  intros n n' _ _ [= Hd Ho].
  pose proof (Z.mod_pos_bound n 64 ltac:(lia)) as Hm.
  pose proof (Z.mod_pos_bound n' 64 ltac:(lia)) as Hm'.
  rewrite (u32_small (n mod 64 * 4)), (u32_small (n' mod 64 * 4)) in Ho by lia.
  rewrite (Z.div_mod n 64), (Z.div_mod n' 64) by lia. lia.
Qed.

(** X19: the subnet counters of [AssignIpAddresses] run through the links
    in loop order (the link from [tor] to [agg] has counter
    [tor * 20 + agg], the link from [agg] to [core] counter
    [agg * 16 + core]), and the 20 rack networks, the 400 ToR-aggregation
    networks and the 320 aggregation-core networks are 740 different
    networks whose four numbers are all below 256. *)
Theorem AssignIpAddresses_networks :
  (forall tor agg, 0 <= tor < NUM_RACKS -> 0 <= agg < NUM_AGG_SWITCHES ->
     torAggNetworks !! Z.to_nat (tor * NUM_AGG_SWITCHES + agg)
     = Some {| link_from := tor; link_to := agg;
               network := link_network 172 16 (tor * NUM_AGG_SWITCHES + agg) |})
  /\ (forall agg core, 0 <= agg < NUM_AGG_SWITCHES -> 0 <= core < NUM_CORE_SWITCHES ->
     aggCoreNetworks !! Z.to_nat (agg * NUM_CORE_SWITCHES + core)
     = Some {| link_from := agg; link_to := core;
               network := link_network 192 168 (agg * NUM_CORE_SWITCHES + core) |})
  /\ length (rackNetworks ++ (network <$> torAggNetworks) ++ (network <$> aggCoreNetworks))
     = 740%nat
  /\ NoDup (rackNetworks ++ (network <$> torAggNetworks) ++ (network <$> aggCoreNetworks))
  /\ Forall (fun '(a, b, c, d) => 0 <= a < 256 /\ 0 <= b < 256 /\ 0 <= c < 256 /\ 0 <= d < 256)
       (rackNetworks ++ (network <$> torAggNetworks) ++ (network <$> aggCoreNetworks)).
Proof.
  assert (Hta : network <$> torAggNetworks = link_network 172 16 <$> seqZ 0 400).
  { rewrite torAggNetworks_flat, <- list_fmap_compose. reflexivity. }
  assert (Hac : network <$> aggCoreNetworks = link_network 192 168 <$> seqZ 0 320).
  { rewrite aggCoreNetworks_flat, <- list_fmap_compose. reflexivity. }
  split; [|split; [|split; [|split]]].
  - intros tor agg Ht Ha. unfold NUM_RACKS, NUM_AGG_SWITCHES in *.
    rewrite torAggNetworks_flat, list_lookup_fmap.
    unfold NUM_RACKS, NUM_AGG_SWITCHES.
    rewrite lookup_seqZ_lt by lia. simpl. rewrite Z2Nat.id by lia. f_equal. f_equal.
    + symmetry. apply (Z.div_unique _ 20 tor agg); lia.
    + symmetry. apply (Z.mod_unique _ 20 tor agg); lia.
  - intros agg core Ha Hc. unfold NUM_CORE_SWITCHES, NUM_AGG_SWITCHES in *.
    rewrite aggCoreNetworks_flat, list_lookup_fmap.
    unfold NUM_CORE_SWITCHES, NUM_AGG_SWITCHES.
    rewrite lookup_seqZ_lt by lia. simpl. rewrite Z2Nat.id by lia. f_equal. f_equal.
    + symmetry. apply (Z.div_unique _ 16 agg core); lia.
    + symmetry. apply (Z.mod_unique _ 16 agg core); lia.
  - rewrite Hta, Hac. unfold rackNetworks.
    rewrite !length_app, !length_fmap, !length_seqZ. reflexivity.
  - rewrite Hta, Hac. unfold rackNetworks.
    apply NoDup_app. split; [|split].
    + apply NoDup_fmap_2_strong; [|apply NoDup_seqZ]. now intros r r' _ _ [= ->].
    + intros x [r [-> _]]%list_elem_of_fmap Hx.
      apply elem_of_app in Hx as [Hx|Hx];
        apply list_elem_of_fmap in Hx as [n [Hx _]]; discriminate Hx.
    + apply NoDup_app. split; [|split]; try apply link_networks_NoDup.
      intros x [n [-> _]]%list_elem_of_fmap [n' [Hx _]]%list_elem_of_fmap.
      discriminate Hx.
  - rewrite Hta, Hac. unfold rackNetworks. rewrite !Forall_app, !Forall_fmap, !Forall_seqZ.
    unfold NUM_RACKS. split; [|split].
    + intros r Hr. simpl. lia.
    + intros n Hn. destruct (link_network_bounds 172 16 n ltac:(lia)) as (H1 & H2).
      unfold link_network in *. simpl in *. lia.
    + intros n Hn. destruct (link_network_bounds 192 168 n ltac:(lia)) as (H1 & H2).
      unfold link_network in *. simpl in *. lia.
Qed.

(** ** Links *)

Lemma forall_range2 (P : Z -> Z -> Prop) `{!forall x y, Decision (P x y)} n k :
  bool_decide (Forall (fun x => Forall (fun y => P x y) (seqZ 0 k)) (seqZ 0 n)) = true ->
  forall x y, 0 <= x < n -> 0 <= y < k -> P x y.
Proof.
  intros Hall%bool_decide_eq_true x y Hx Hy.
  rewrite Forall_seqZ in Hall. specialize (Hall x ltac:(lia)).
  rewrite Forall_seqZ in Hall. apply Hall. lia.
Qed.

(** X20: the containers [ConfigureLinks] fills hold the two devices of
    every link side by side, so the indices [AssignIpAddresses] and the
    routing functions read are the ends they are commented to be: in
    [m_serverTorLinks[rack]], [2 * server] is the device of server
    [rack * 16 + server] and [2 * server + 1] the device of the ToR
    switch; in [m_torAggLinks[tor]], [2 * agg] is the ToR side and
    [2 * agg + 1] the aggregation side; in [m_aggCoreLinks[agg]],
    [2 * core] is the aggregation side and [2 * core + 1] the core
    side. *)
Theorem ConfigureLinks_ends :
  (forall rack server, 0 <= rack < NUM_RACKS -> 0 <= server < SERVERS_PER_RACK ->
     Get m_serverTorLinks rack (server * 2)
     = Some (device (Server (rack * SERVERS_PER_RACK + server)) (Tor rack))
     /\ Get m_serverTorLinks rack (server * 2 + 1)
        = Some (device (Tor rack) (Server (rack * SERVERS_PER_RACK + server))))
  /\ (forall tor agg, 0 <= tor < NUM_RACKS -> 0 <= agg < NUM_AGG_SWITCHES ->
     Get m_torAggLinks tor (agg * 2) = Some (device (Tor tor) (Agg agg))
     /\ Get m_torAggLinks tor (agg * 2 + 1) = Some (device (Agg agg) (Tor tor)))
  /\ (forall agg core, 0 <= agg < NUM_AGG_SWITCHES -> 0 <= core < NUM_CORE_SWITCHES ->
     Get m_aggCoreLinks agg (core * 2) = Some (device (Agg agg) (Core core))
     /\ Get m_aggCoreLinks agg (core * 2 + 1) = Some (device (Core core) (Agg agg))).
Proof.
  split; [|split].
  - apply (forall_range2 _ NUM_RACKS SERVERS_PER_RACK). vm_compute. reflexivity.
  - apply (forall_range2 _ NUM_RACKS NUM_AGG_SWITCHES). vm_compute. reflexivity.
  - apply (forall_range2 _ NUM_AGG_SWITCHES NUM_CORE_SWITCHES). vm_compute. reflexivity.
Qed.

(** X21: every container of [ConfigureLinks] holds two devices for each
    link of its switch (32, 40 and 32 devices), and each of the 320
    servers has exactly one device, on the link to the ToR switch of its
    rack. *)
Theorem ConfigureLinks_sizes :
  Forall (fun c => length c = 32%nat) m_serverTorLinks
  /\ length m_serverTorLinks = 20%nat
  /\ Forall (fun c => length c = 40%nat) m_torAggLinks
  /\ length m_torAggLinks = 20%nat
  /\ Forall (fun c => length c = 32%nat) m_aggCoreLinks
  /\ length m_aggCoreLinks = 20%nat
  /\ forall idx, 0 <= idx < NUM_SERVERS ->
       filter (fun d => device_node d = Server idx) (concat m_serverTorLinks)
       = [device (Server idx) (Tor (receiverRack idx))].
Proof.
  do 6 (split; [apply (bool_decide_unpack _); vm_compute; exact I|]).
  intros idx Hidx.
  assert (H : bool_decide (Forall (fun idx =>
                filter (fun d => device_node d = Server idx) (concat m_serverTorLinks)
                = [device (Server idx) (Tor (receiverRack idx))]) (seqZ 0 NUM_SERVERS)) = true)
    by (vm_compute; reflexivity).
  apply bool_decide_eq_true in H. rewrite Forall_seqZ in H. apply H. lia.
Qed.

End FatTreeProperties.

(** * The further theorems at work *)

Module MoreExamples.
Import ListQueue Scenarios MoreScenarios.

Lemma basic_run :
  Schedule_loop (phy := phy_exact) 2 4 tt HEADER_TYPE_GENERIC (Some 1%nat) basic_heap []
  = Some ([packet24], 2, basic_heap_after).
Proof. vm_compute. reflexivity. Defined.

Lemma basic_call :
  Schedule (phy := phy_exact) 2 idle_station 4 tt HEADER_TYPE_GENERIC None basic_heap
  = Some (Returned [packet24] (Some 1%nat) basic_heap_after).
Proof. vm_compute. reflexivity. Defined.

Lemma basic_heap_ok : well_formed (GetQueue (basic_heap 1%nat)).
Proof. repeat constructor; simpl; lia. Defined.

(** The grant of 4 symbols on the basic connection touches no other
    connection. *)
Lemma Schedule_frame_witness :
  Schedule (phy := phy_exact) 2 idle_station 4 tt HEADER_TYPE_GENERIC None basic_heap
  = Some (Returned [packet24] (Some 1%nat) basic_heap_after)
  /\ forall c, Some 1%nat <> Some c -> basic_heap_after c = basic_heap c.
Proof.
  split; [exact basic_call|].
  exact (proj1 (proj2 (Schedule_frame (phy := phy_exact) _ _ _ _ _ _ _ _ _ _ basic_call))).
Defined.

(** Scenario S4: nothing fits, nothing is dequeued. *)
Lemma Schedule_empty_burst_heap_witness :
  Schedule (phy := phy_exact) 1 idle_station 1 tt HEADER_TYPE_GENERIC None basic_heap
  = Some (Returned [] (Some 1%nat) basic_heap)
  /\ basic_heap = basic_heap.
Proof.
  assert (H : Schedule (phy := phy_exact) 1 idle_station 1 tt HEADER_TYPE_GENERIC None
                basic_heap = Some (Returned [] (Some 1%nat) basic_heap)) by reflexivity.
  split; [exact H|].
  exact (Schedule_empty_burst_heap (phy := phy_exact) _ _ _ _ _ _ _ _ _ H).
Defined.

(** After the 24-byte packet 2 symbols (24 bytes) are left, and the head
    packet needs 50. *)
Lemma Schedule_loop_exit_witness :
  HasPacketsOf HEADER_TYPE_GENERIC (basic_heap_after 1%nat) = true
  /\ availableByte (phy := phy_exact) 2 tt
     < requiredByte HEADER_TYPE_GENERIC (GetQueue (basic_heap_after 1%nat)).
Proof.
  split; [reflexivity|].
  exact (proj1 (Schedule_loop_exit (phy := phy_exact) tt HEADER_TYPE_GENERIC 1%nat 2 4
                  basic_heap [] _ _ _ basic_run eq_refl)).
Defined.

(** 48 bytes pay for the 24-byte head packet: the burst starts with it. *)
Lemma Schedule_loop_progress_witness :
  availableByte (phy := phy_exact) 4 tt
  >= requiredByte HEADER_TYPE_GENERIC (GetQueue (basic_heap 1%nat))
  /\ exists packet rest,
       [packet24] = packet :: rest
       /\ (packet = (Dequeue HEADER_TYPE_GENERIC (GetQueue (basic_heap 1%nat))).1
           \/ packet = (DequeueFragment HEADER_TYPE_GENERIC
                          (availableByte (phy := phy_exact) 4 tt)
                          (GetQueue (basic_heap 1%nat))).1).
Proof.
  assert (Hge : availableByte (phy := phy_exact) 4 tt
                >= requiredByte HEADER_TYPE_GENERIC (GetQueue (basic_heap 1%nat)))
    by (vm_compute; discriminate).
  split; [exact Hge|].
  exact (Schedule_loop_progress (phy := phy_exact) 2 4 tt HEADER_TYPE_GENERIC 1%nat
           basic_heap _ _ _ eq_refl (or_introl Hge) basic_run).
Defined.

Lemma ListQueue_empty (t : HeaderType) (q : list QueueElement) :
  IsEmpty q = true -> IsEmptyOf t q = true.
Proof. destruct q; [reflexivity|discriminate]. Defined.

(** The basic connection is what [SelectConnection] picks, and passing it
    in changes nothing. *)
Lemma Schedule_selected_explicitly_witness :
  SelectConnection (phy := phy_exact) idle_station basic_heap = Some 1%nat
  /\ HasPackets (basic_heap 1%nat) = true
  /\ Schedule (phy := phy_exact) 2 idle_station 4 tt HEADER_TYPE_GENERIC (Some 1%nat) basic_heap
     = Schedule (phy := phy_exact) 2 idle_station 4 tt HEADER_TYPE_GENERIC None basic_heap.
Proof.
  split; [reflexivity|].
  exact (Schedule_selected_explicitly (phy := phy_exact) 2 idle_station 4 tt
           HEADER_TYPE_GENERIC basic_heap 1%nat ListQueue_empty eq_refl).
Defined.

(** 4 symbols, a packet of 2 symbols, 2 symbols left. *)
Lemma Schedule_loop_accounting_witness :
  2 = 4 - burst_symbols (phy := phy_exact) [packet24] tt
  /\ 0 <= 2
  /\ burst_symbols (phy := phy_exact) [packet24] tt <= 4.
Proof.
  exact (@Schedule_loop_accounting phy_exact queue well_formed backlog
           ListQueueFacts.ListQueue_laws (BlockPhy_exact 12 5000000 eq_refl)
           2 4 tt HEADER_TYPE_GENERIC 1%nat basic_heap _ _ _
           ltac:(lia) basic_heap_ok basic_run).
Defined.


End MoreExamples.

Module FatTreeExamples.
Import stdpp.gmap.
Import FatTree FatTreeProperties MoreScenarios.
Local Open Scope Z_scope.

(** Server 37 is at position 5 of rack 2. *)
Lemma GetServer_of_index_witness :
  receiverRack 37 = 2 /\ receiverPos 37 = 5
  /\ GetServer (receiverRack 37) (receiverPos 37) = Value 37.
Proof.
  split; [reflexivity|]. split; [reflexivity|].
  exact (proj2 (proj2 (GetServer_of_index 37 ltac:(unfold NUM_SERVERS; lia)))).
Defined.

Lemma GetServer_inv_witness :
  GetServer 2 5 = Value 37
  /\ 0 <= 37 < NUM_SERVERS /\ receiverRack 37 = 2 /\ receiverPos 37 = 5.
Proof.
  split; [reflexivity|].
  exact (GetServer_inv 2 5 37 ltac:(lia) ltac:(lia) eq_refl).
Defined.

(** The address of server 37 is entry 10 of the container of rack 2. *)
Lemma GetServerAddress_of_index_witness :
  GetServerAddress 0 interfaces (receiverRack 37) (receiverPos 37) = Value (2 * 256 + 11).
Proof.
  exact (GetServerAddress_of_index 0 interfaces 37 _
           ltac:(unfold NUM_SERVERS; lia) eq_refl).
Defined.

(** Three calls for receiver 5, the first for UDP: 9005, 9006, 9007. *)
Lemma GetUniquePort_distinct_witness :
  (GetUniquePort_calls [(5, false); (5, true); (5, false)] ∅).1 = [9005; 9006; 9007]
  /\ NoDup (GetUniquePort_calls [(5, false); (5, true); (5, false)] ∅).1.
Proof.
  split; [reflexivity|].
  exact (GetUniquePort_distinct 5 [false; true; false] ∅ ltac:(simpl; lia)).
Defined.

Lemma GetUniquePort_independent_witness :
  (GetUniquePort 2 true (GetUniquePort 1 false ∅).2).1 = 8002
  /\ (GetUniquePort 2 true (GetUniquePort 1 false ∅).2).2
     = (GetUniquePort 1 false (GetUniquePort 2 true ∅).2).2.
Proof.
  destruct (GetUniquePort_independent 1 2 false true ∅ ltac:(lia)) as (_ & _ & H3 & H4).
  split; [exact H3 | exact H4].
Defined.

(** The tape 7, 7, 3, 9: sender 7, the second 7 is drawn again, receiver
    3, and 9 is left on the tape. *)
Lemma GetRandomServerPair_inv_witness :
  GetRandomServerPair [7; 7; 3; 9] = Some ((7, 3), [9]) /\ 7 <> 3.
Proof.
  split; [reflexivity|].
  exact (proj1 (GetRandomServerPair_inv [7; 7; 3; 9] 7 3 [9] eq_refl)).
Defined.

(** A shuffle that reverses the vector, receiver 0 with address 1: the
    senders are servers 319 down to 256. *)
Lemma StartIncast_senders_witness :
  default 0 (seqZ 1 32 !! Z.to_nat (2 * receiverPos 0)) = 1
  /\ exists incast,
       StartIncast 0 interfaces reverse 0 ∅ = Value (Some incast, {[ 0 := 8000 ]})
       /\ port incast = 8000
       /\ length (senders incast) = 64%nat
       /\ NoDup (senders incast)
       /\ Forall (fun s => 0 <= s < NUM_SERVERS /\ s <> 0) (senders incast).
Proof.
  split; [reflexivity|].
  refine (proj2 (StartIncast_senders 0 interfaces reverse 0 ∅ ((fun i => 0 * 256 + i) <$> seqZ 1 32)
                   (fun l => reverse_Permutation l) ltac:(unfold NUM_SERVERS; lia) eq_refl) _).
  vm_compute. discriminate.
Defined.

(** The last ToR-aggregation link, counter 399, has network
    172.16.6.60. *)
Lemma link_network_octets_witness :
  link_network 172 16 399 = (172, 16, 6, 60)
  /\ forall n', link_network 172 16 399 = link_network 172 16 n' -> 399 = n'.
Proof.
  split; [reflexivity|].
  exact (proj2 (proj2 (proj2 (link_network_octets 172 16 399 ltac:(lia))))).
Defined.

End FatTreeExamples.
